(** * Borders: sheet-border resolution of the grid renderer

    A shallow embedding of
    [quadratic-client/src/app/gridGL/cells/borders/Borders.ts].

    Conventions of the embedding.
    - Column and row indices are JavaScript numbers obtained from bigints
      by [Number(...)]; they are integers, modelled as [Z] (the loss of
      precision beyond 2^53 is outside the model).
    - The zoom scale, the two thresholds and alpha are JavaScript numbers:
      IEEE 754 binary64 values, modelled by the primitive [float] with its
      comparison, addition, subtraction and division.
    - Pixel coordinates are JavaScript numbers too; the renderer only
      subtracts them and hands them on, and they are idealised as
      rationals [Q].
    - A [Record<string, BorderStyleCell>] is an association list in the
      enumeration order of its keys ([for ... in]); keys are the integers
      spelled by the strings.  A key that does not spell an integer, on
      which [Number(BigInt(x))] throws, is outside the model.
    - [throw] is modelled by the [Throw] result; effects made before a
      throw are kept.
    - Functions imported from other files ([bordersUtil], [intersects])
      and from pixi ([Rectangle.intersects]) are fields of the records
      [BordersUtil] and [World]; the theorems about [Borders.ts] hold for
      every implementation of them.  Where a statement needs what they
      compute, they are taken from the specification ([specUtil]). *)

From Stdlib Require Import String.
From Stdlib Require Import List ZArith QArith Qround Bool Lia.
From Stdlib Require Import Floats.
From Stdlib Require Import Permutation Sorted.
From Equations Require Import Equations.
From Equations.Prop Require Import Logic.
Import ListNotations.

Set Implicit Arguments.
Local Open Scope Z_scope.

(* ===================================================================== *)
(** ** Data model (quadratic-core-types)                                  *)
(* ===================================================================== *)

Record Rgba := mkRgba { red : Z; green : Z; blue : Z; alpha : Z }.

(** [CellBorderLine] is a union of string literals; only ['clear'] is
    named by the renderer. *)
Definition CellBorderLine := string.

Definition is_clear (l : CellBorderLine) : bool := String.eqb l "clear".

Record BorderStyleTimestamp := mkBST {
  bst_color : Rgba;
  bst_line : CellBorderLine;
  bst_timestamp : Z
}.

Record BorderStyleCell := mkBSC {
  bsc_top : option BorderStyleTimestamp;
  bsc_bottom : option BorderStyleTimestamp;
  bsc_left : option BorderStyleTimestamp;
  bsc_right : option BorderStyleTimestamp
}.

(** The explicit segments.  Their type declarations (quadratic-core-types)
    lie outside [Borders.ts]; the fields are the ones [Borders.ts] reads:
    [color], [line], and the bigints [x], [y] and [width] or [height]. *)
Record JsBorderHorizontal := mkH {
  h_color : Rgba;
  h_line : CellBorderLine;
  h_x : Z;
  h_y : Z;
  h_width : Z
}.

Record JsBorderVertical := mkV {
  v_color : Rgba;
  v_line : CellBorderLine;
  v_x : Z;
  v_y : Z;
  v_height : Z
}.

(** [Record<string, BorderStyleCell>], in enumeration order. *)
Definition Overrides := list (Z * BorderStyleCell).

Fixpoint lookup (m : Overrides) (k : Z) : option BorderStyleCell :=
  match m with
  | [] => None
  | (k', v) :: m' => if k' =? k then Some v else lookup m' k
  end.

Record JsBordersSheet := mkBorders {
  b_all : option BorderStyleCell;
  b_columns : option Overrides;
  b_rows : option Overrides;
  b_horizontal : option (list JsBorderHorizontal);
  b_vertical : option (list JsBorderVertical)
}.

(** [this.borders?.vertical] and friends: [undefined] when there is no
    dataset. *)
Definition borders_vertical (b : option JsBordersSheet) : option (list JsBorderVertical) :=
  match b with Some d => b_vertical d | None => None end.

Definition borders_horizontal (b : option JsBordersSheet) : option (list JsBorderHorizontal) :=
  match b with Some d => b_horizontal d | None => None end.

Definition truthy {A} (o : option A) : bool :=
  match o with Some _ => true | None => false end.

(* ===================================================================== *)
(** ** Imported helpers                                                   *)
(* ===================================================================== *)

(** [divideLine] mutates the array [lines] it is given and returns the new
    cursor; here it returns both. *)
Record BordersUtil := mkUtil {
  divideLine :
    list (Z * Z) -> option Z -> Z -> Z -> Z -> Z -> list (Z * Z) * option Z;
  findPerpendicularVerticalLines :
    Z -> Z -> option Overrides -> list JsBorderVertical;
  findPerpendicularHorizontalLines :
    Z -> Z -> option Overrides -> list JsBorderHorizontal;
  lineLineOneDimension : Z -> Z -> Z -> Z -> bool
}.

(* ===================================================================== *)
(** ** Array primitives                                                   *)
(* ===================================================================== *)

(** [Array.prototype.pop]: removes the last element and returns it;
    [undefined] on an empty array. *)
Definition pop {A} (l : list A) : option (A * list A) :=
  match l with
  | [] => None
  | a :: _ => Some (last l a, removelast l)
  end.

(** [Array.prototype.sort((a, b) => key(a) - key(b))]: the sort is stable,
    so its result is the one of a stable insertion sort. *)
Fixpoint insertBy {A} (key : A -> Z) (a : A) (l : list A) : list A :=
  match l with
  | [] => [a]
  | b :: l' => if key a <=? key b then a :: l else b :: insertBy key a l'
  end.

Fixpoint sortBy {A} (key : A -> Z) (l : list A) : list A :=
  match l with
  | [] => []
  | a :: l' => insertBy key a (sortBy key l')
  end.

(* ===================================================================== *)
(** ** The overlap resolver (lines 76-107 and 130-161)                    *)
(* ===================================================================== *)

Section Resolver.
Context (U : BordersUtil).
Context {A : Type} (pos len : A -> Z).

(** [while (overlaps.length) { const overlap = overlaps.pop();
      if (overlap) current = divideLine(lines, current, start, end,
                                        Number(overlap.pos), Number(overlap.len)); }] *)
Equations? popLoop (start end_ : Z) (overlaps : list A)
    (lines : list (Z * Z)) (current : option Z)
    : list (Z * Z) * option Z by wf (length overlaps) lt :=
  popLoop start end_ overlaps lines current with inspect (pop overlaps) => {
    | exist _ None _ => (lines, current);
    | exist _ (Some (overlap, rest)) e =>
        popLoop start end_ rest
          (fst (divideLine U lines current start end_ (pos overlap) (len overlap)))
          (snd (divideLine U lines current start end_ (pos overlap) (len overlap)))
  }.
Proof.
  clear popLoop. destruct overlaps as [|a l]; [discriminate|].
  injection e as _ <-.
  revert a; induction l as [|b l IH]; intros a; simpl in *; [lia|].
  specialize (IH b). destruct l; simpl in *; lia.
Qed.

(** The tail of both resolvers, from [overlaps.sort(...)] to the last
    [lines.push]. *)
Definition resolveOverlaps (start end_ : Z) (overlaps : list A) : list (Z * Z) :=
  let sorted := sortBy pos overlaps in
  let '(lines, current) := popLoop start end_ sorted [] None in
  match current with
  | None => lines ++ [(start, end_)]
  | Some c => if c <? end_ then lines ++ [(c, end_)] else lines
  end.
End Resolver.

Section Lines.
Context (U : BordersUtil).

(** Lines 79-91: the explicit vertical segments of column [column] that
    overlap the span, followed by what the perpendicular finder returns. *)
Definition verticalOverlaps (borders : option JsBordersSheet)
    (rowStart rowEnd column : Z) (rows : option Overrides) : list JsBorderVertical :=
  (match borders_vertical borders with
   | Some vs =>
       filter (fun vertical =>
                 (v_x vertical =? column) &&
                 lineLineOneDimension U (v_y vertical)
                   (v_y vertical + v_height vertical) rowStart rowEnd) vs
   | None => []
   end)
  ++ findPerpendicularVerticalLines U rowStart rowEnd rows.

(** Lines 76-107: the sub-intervals of [rowStart, rowEnd) that
    [drawScreenVerticalLine] draws. *)
Definition verticalLines (borders : option JsBordersSheet)
    (rowStart rowEnd column : Z) (rows : option Overrides) : list (Z * Z) :=
  if truthy (borders_vertical borders) || truthy rows then
    resolveOverlaps U v_y v_height rowStart rowEnd
      (verticalOverlaps borders rowStart rowEnd column rows)
  else [(rowStart, rowEnd)].

(** Lines 133-145. *)
Definition horizontalOverlaps (borders : option JsBordersSheet)
    (columnStart columnEnd row : Z) (columns : option Overrides) : list JsBorderHorizontal :=
  (match borders_horizontal borders with
   | Some hs =>
       filter (fun horizontal =>
                 (h_y horizontal =? row) &&
                 lineLineOneDimension U (h_x horizontal)
                   (h_x horizontal + h_width horizontal) columnStart columnEnd) hs
   | None => []
   end)
  ++ findPerpendicularHorizontalLines U columnStart columnEnd columns.

(** Lines 130-161. *)
Definition horizontalLines (borders : option JsBordersSheet)
    (columnStart columnEnd row : Z) (columns : option Overrides) : list (Z * Z) :=
  if truthy (borders_horizontal borders) || truthy columns then
    resolveOverlaps U h_x h_width columnStart columnEnd
      (horizontalOverlaps borders columnStart columnEnd row columns)
  else [(columnStart, columnEnd)].
End Lines.

(* ===================================================================== *)
(** ** The resolver as the specification words it                         *)
(* ===================================================================== *)

Section ResolverSpec.
Context (U : BordersUtil).
Context {A : Type} (pos len : A -> Z).

(** One obstruction fed to the interval subtraction, with the array of
    segments and the cursor accumulated so far. *)
Definition consume (start end_ : Z) (acc : list (Z * Z) * option Z) (o : A)
    : list (Z * Z) * option Z :=
  divideLine U (fst acc) (snd acc) start end_ (pos o) (len o).

(** Step 4 of the resolver: the whole span when the cursor is unset,
    else the remainder after the cursor when there is one. *)
Definition emitRest (start end_ : Z) (acc : list (Z * Z) * option Z) : list (Z * Z) :=
  match snd acc with
  | None => fst acc ++ [(start, end_)]
  | Some c => if c <? end_ then fst acc ++ [(c, end_)] else fst acc
  end.

(** Steps 3 and 4 on obstructions already sorted ascending: they are
    consumed from the greatest position downward. *)
Definition consumeDescending (start end_ : Z) (sorted : list A) : list (Z * Z) :=
  emitRest start end_ (fold_left (consume start end_) (rev sorted) ([], None)).
End ResolverSpec.

Definition ascending {A} (pos : A -> Z) (l : list A) : Prop :=
  StronglySorted (fun a b => pos a <= pos b) l.

(* ===================================================================== *)
(** ** Host services and renderer state                                   *)
(* ===================================================================== *)

Record Rectangle := mkRect { rect_x : Q; rect_y : Q; rect_width : Q; rect_height : Q }.

(** The visible bounds of the viewport, read through [left], [right],
    [top] and [bottom]. *)
Record Bounds := mkBounds {
  bounds_left : Q;
  bounds_right : Q;
  bounds_top : Q;
  bounds_bottom : Q
}.

(** [Sheet]: the coordinate offsets of one sheet. [getCellOffsets] is read
    through its [x] and [y] only. *)
Record Sheet := mkSheet {
  getColumnX : Z -> Q;
  getRowY : Z -> Q;
  getCellOffsets : Z -> Z -> Q * Q
}.

(** What the renderer reads from [sheets] and [pixiApp.viewport] during
    one tick.  [getXPlacement] and [getYPlacement] stand for
    [sheets.sheet.offsets.getXPlacement(..).index] and its row twin. *)
Record World := mkWorld {
  getById : string -> option Sheet;
  getXPlacement : Q -> Z;
  getYPlacement : Q -> Z;
  getVisibleBounds : Bounds;
  scale_x : float;
  intersects : Rectangle -> Bounds -> bool
}.

Inductive Orientation := Horizontal | Vertical.

(** The argument of [drawCellBorder]: a position and a [horizontal] or
    [vertical] style. *)
Record DrawOptions := mkOptions {
  position : Rectangle;
  orientation : Orientation;
  line_type : CellBorderLine;
  line_color : Rgba
}.

(** Which [getSprite] callback a draw call is given: [getSprite] adds to
    [cellLines], [getSpriteSheet] to [sheetLines]. *)
Inductive Layer := CellLayer | SheetLayer.

Record DrawCall := mkCall { target : Layer; options : DrawOptions }.

(** A sprite object of the scene graph. *)
Record Sprite := mkSprite { sprite_options : DrawOptions; sprite_visible : bool }.

(** [BorderCull]: a reference to a sprite and its logical rectangle. *)
Record BorderCull := mkCull { cull_sprite : nat; cull_rectangle : Rectangle }.

(** The fields of a [Borders] object, the sprite objects it has created
    ([sprites]; a reference to a sprite is its index there, so that the
    containers and [spriteLines] share the objects), and
    [pixiApp.viewport.dirty]. *)
Record State := mkState {
  sheetId : string;
  borders : option JsBordersSheet;
  sprites : list Sprite;
  cellLines : list nat;
  sheetLines : list nat;
  sheetLines_visible : bool;
  sheetLines_alpha : float;
  spriteLines : list BorderCull;
  dirty : bool;
  viewport_dirty : bool
}.

Inductive result (A : Type) :=
| Ok (a : A)
| Throw (message : string).
Arguments Ok {A} a.
Arguments Throw {A} message.

(** Drawing code: the draw calls made so far and a value, or the error
    thrown after them. *)
Definition Draw (A : Type) : Type := list DrawCall * result A.

Definition ret {A} (a : A) : Draw A := ([], Ok a).

Definition bind {A B} (c : Draw A) (k : A -> Draw B) : Draw B :=
  match snd c with
  | Ok a => (fst c ++ fst (k a), snd (k a))
  | Throw m => (fst c, Throw m)
  end.

Definition lift {A} (r : result A) : Draw A := ([], r).

Declare Scope draw_scope.
Delimit Scope draw_scope with draw.
Notation "x <- c ;; k" := (bind c (fun x => k))
  (at level 61, c at next level, right associativity) : draw_scope.
Notation "c ;; k" := (bind c (fun _ => k))
  (at level 61, right associativity) : draw_scope.

(** [array.forEach(f)] and [for (const a of array) f(a)]. *)
Fixpoint forEach {A} (l : list A) (f : A -> Draw unit) : Draw unit :=
  match l with
  | [] => ret tt
  | a :: l' => bind (f a) (fun _ => forEach l' f)
  end.

(** Modelled from the spec: [drawCellBorder] is defined in drawBorders.ts,
    outside [Borders.ts].  Following section 4.3, step 5, a call emits
    one drawable primitive, positioned and styled as the call says, through
    the [getSprite] callback it is given. *)
Definition drawCellBorder (getSprite : Layer) (o : DrawOptions) : Draw unit :=
  ([mkCall getSprite o], Ok tt).

(** The integers [a, a+1, ..., b] of [for (let i = a; i <= b; i++)]. *)
Definition upto (a b : Z) : list Z :=
  map (fun i => a + Z.of_nat i) (seq 0 (Z.to_nat (b + 1 - a))).

(** The message of the error of line 62. *)
Definition sheetError : string := "Expected sheet to be defined in CellsBorders.sheet".

(** Lines 28-29.  A decimal literal denotes the binary64 value nearest to
    it, in JavaScript as here. *)
#[warnings="-inexact-float"]
Definition SCALE_TO_SHOW_SHEET_BORDERS : float := 0.15.
#[warnings="-inexact-float"]
Definition FADE_SCALE : float := 0.1.
Arguments SCALE_TO_SHOW_SHEET_BORDERS : simpl never.
Arguments FADE_SCALE : simpl never.

(** The mantissas of the two constants: 0.15 is [scaleMantissa * 2^-55]
    and 0.1 is [fadeMantissa * 2^-56]. *)
Definition scaleMantissa : positive := 5404319552844595.
Definition fadeMantissa : positive := 7205759403792794.

(* ===================================================================== *)
(** ** The renderer                                                       *)
(* ===================================================================== *)

Section Renderer.
Context (U : BordersUtil) (w : World).
Local Open Scope draw_scope.

(** Lines 60-64: [private get sheet()]. *)
Definition sheet (id : string) : result Sheet :=
  match getById w id with
  | Some s => Ok s
  | None => Throw sheetError
  end.

(** Lines 68-118. [id] is [this.cellsSheet.sheetId] and [bs] is
    [this.borders]. *)
Definition drawScreenVerticalLine (id : string) (bs : option JsBordersSheet)
    (rowStart rowEnd column : Z) (border : BorderStyleTimestamp)
    (rows : option Overrides) : Draw unit :=
  let lines := verticalLines U bs rowStart rowEnd column rows in
  sh <- lift (sheet id) ;;
  let x := getColumnX sh column in
  forEach lines (fun '(start, end_) =>
    sh1 <- lift (sheet id) ;;
    let yStart := getRowY sh1 start in
    sh2 <- lift (sheet id) ;;
    let yEnd := getRowY sh2 end_ in
    drawCellBorder SheetLayer
      (mkOptions (mkRect x yStart 0 (yEnd - yStart)) Vertical
                 (bst_line border) (bst_color border))).

(** Lines 122-172. *)
Definition drawScreenHorizontalLine (id : string) (bs : option JsBordersSheet)
    (columnStart columnEnd row : Z) (border : BorderStyleTimestamp)
    (columns : option Overrides) : Draw unit :=
  let lines := horizontalLines U bs columnStart columnEnd row columns in
  sh <- lift (sheet id) ;;
  let y := getRowY sh row in
  forEach lines (fun '(start, end_) =>
    sh1 <- lift (sheet id) ;;
    let xStart := getColumnX sh1 start in
    sh2 <- lift (sheet id) ;;
    let xEnd := getColumnX sh2 end_ in
    drawCellBorder SheetLayer
      (mkOptions (mkRect xStart y (xEnd - xStart) 0) Horizontal
                 (bst_line border) (bst_color border))).

(** A call of one of the two line drawers, with its arguments. *)
Inductive LineCall :=
| VerticalCall (rowStart rowEnd column : Z) (border : BorderStyleTimestamp)
               (rows : option Overrides)
| HorizontalCall (columnStart columnEnd row : Z) (border : BorderStyleTimestamp)
                 (columns : option Overrides).

Definition runCall (id : string) (bs : option JsBordersSheet) (c : LineCall) : Draw unit :=
  match c with
  | VerticalCall rowStart rowEnd column border rows =>
      drawScreenVerticalLine id bs rowStart rowEnd column border rows
  | HorizontalCall columnStart columnEnd row border columns =>
      drawScreenHorizontalLine id bs columnStart columnEnd row border columns
  end.

(** [const right = borders.columns[(xNumber - 1).toString()]?.right] and
    the three lookups like it. *)
Definition neighbor (m : Overrides) (k : Z)
    (edge : BorderStyleCell -> option BorderStyleTimestamp) : option BorderStyleTimestamp :=
  match lookup m k with
  | Some cell => edge cell
  | None => None
  end.

(** [if (!other || edge.timestamp > other.timestamp)]. *)
Definition wins (edge : BorderStyleTimestamp) (other : option BorderStyleTimestamp) : bool :=
  match other with
  | None => true
  | Some o => bst_timestamp edge >? bst_timestamp o
  end.

Section Tiers.
Context (d : JsBordersSheet) (columnStart columnEnd rowStart rowEnd : Z).

(** Lines 200-233: the line drawer calls of one iteration of
    [for (let x in borders.columns)], in order. *)
Definition columnCalls (columns : Overrides) (xNumber : Z) : list LineCall :=
  if (xNumber >=? columnStart) && (xNumber <=? columnEnd) then
    match lookup columns xNumber with
    | Some column =>
        (match bsc_left column with
         | Some left_ =>
             if negb (is_clear (bst_line left_)) then
               if wins left_ (neighbor columns (xNumber - 1) bsc_right) then
                 [VerticalCall rowStart (rowEnd + 1) xNumber left_ (b_rows d)]
               else []
             else []
         | None => []
         end)
        ++
        (match bsc_right column with
         | Some right_ =>
             if negb (is_clear (bst_line right_)) then
               if wins right_ (neighbor columns (xNumber + 1) bsc_left) then
                 [VerticalCall rowStart (rowEnd + 1) (xNumber + 1) right_ (b_rows d)]
               else []
             else []
         | None => []
         end)
        ++
        (match bsc_top column with
         | Some top_ =>
             if negb (is_clear (bst_line top_)) then
               map (fun y => HorizontalCall xNumber (xNumber + 1) y top_ None)
                   (upto rowStart (rowEnd + 1))
             else []
         | None => []
         end)
        ++
        (match bsc_bottom column with
         | Some bottom_ =>
             if negb (is_clear (bst_line bottom_)) then
               map (fun y => HorizontalCall xNumber (xNumber + 1) y bottom_ None)
                   (upto rowStart (rowEnd + 1))
             else []
         | None => []
         end)
    | None => []
    end
  else [].

(** Lines 198-235. *)
Definition columnTier : list LineCall :=
  match b_columns d with
  | Some columns => flat_map (fun kv => columnCalls columns (fst kv)) columns
  | None => []
  end.

(** Lines 239-278: one iteration of [for (let y in borders.rows)]. *)
Definition rowCalls (rows : Overrides) (yNumber : Z) : list LineCall :=
  if (yNumber >=? rowStart) && (yNumber <=? rowEnd) then
    match lookup rows yNumber with
    | Some row =>
        (match bsc_top row with
         | Some top_ =>
             if negb (is_clear (bst_line top_)) then
               if wins top_ (neighbor rows (yNumber - 1) bsc_bottom) then
                 [HorizontalCall columnStart (columnEnd + 1) yNumber top_ (b_columns d)]
               else []
             else []
         | None => []
         end)
        ++
        (match bsc_bottom row with
         | Some bottom_ =>
             if negb (is_clear (bst_line bottom_)) then
               if wins bottom_ (neighbor rows (yNumber + 1) bsc_top) then
                 [HorizontalCall columnStart (columnEnd + 1) (yNumber + 1) bottom_
                                 (b_columns d)]
               else []
             else []
         | None => []
         end)
        ++
        (match bsc_left row with
         | Some left_ =>
             if negb (is_clear (bst_line left_)) then
               map (fun x => VerticalCall yNumber (yNumber + 1) x left_ None)
                   (upto columnStart (columnEnd + 1))
             else []
         | None => []
         end)
        ++
        (match bsc_right row with
         | Some right_ =>
             if negb (is_clear (bst_line right_)) then
               map (fun x => VerticalCall yNumber (yNumber + 1) x right_ None)
                   (upto columnStart (columnEnd + 1))
             else []
         | None => []
         end)
    | None => []
    end
  else [].

(** Lines 237-280. *)
Definition rowTier : list LineCall :=
  match b_rows d with
  | Some rows => flat_map (fun kv => rowCalls rows (fst kv)) rows
  | None => []
  end.

(** Lines 329-336 and 345-352: the later of two declarations, the
    second one on a tie. *)
Definition later (a b : option BorderStyleTimestamp) : option BorderStyleTimestamp :=
  match a, b with
  | Some ea, Some eb => if bst_timestamp ea >? bst_timestamp eb then Some ea else Some eb
  | Some ea, None => Some ea
  | None, Some eb => Some eb
  | None, None => None
  end.

(** Lines 317-359: the calls of [drawAll]. *)
Definition allTier : list LineCall :=
  match b_all d with
  | Some all =>
      (match later (bsc_top all) (bsc_bottom all) with
       | Some horizontal =>
           map (fun y => HorizontalCall columnStart (columnEnd + 1) y horizontal (b_rows d))
               (upto rowStart rowEnd)
       | None => []
       end)
      ++
      (match later (bsc_left all) (bsc_right all) with
       | Some vertical =>
           map (fun x => VerticalCall rowStart (rowEnd + 1) x vertical (b_columns d))
               (upto columnStart columnEnd)
       | None => []
       end)
  | None => []
  end.
End Tiers.
End Renderer.

Section Component.
Context (U : BordersUtil) (w : World).
Local Open Scope draw_scope.

(** Lines 283-298. *)
Definition drawHorizontal (id : string) (bs : option JsBordersSheet) : Draw unit :=
  match borders_horizontal bs with
  | None => ret tt
  | Some hs =>
      forEach hs (fun border =>
        if is_clear (h_line border) then ret tt
        else
          sh1 <- lift (sheet w id) ;;
          let start := getCellOffsets sh1 (h_x border) (h_y border) in
          sh2 <- lift (sheet w id) ;;
          let end_ := getCellOffsets sh2 (h_x border + h_width border) (h_y border) in
          drawCellBorder CellLayer
            (mkOptions
               (mkRect (fst start) (snd start)
                       (fst end_ - fst start) (snd end_ - snd start))
               Horizontal (h_line border) (h_color border)))
  end.

(** Lines 300-315. *)
Definition drawVertical (id : string) (bs : option JsBordersSheet) : Draw unit :=
  match borders_vertical bs with
  | None => ret tt
  | Some vs =>
      forEach vs (fun border =>
        if is_clear (v_line border) then ret tt
        else
          sh1 <- lift (sheet w id) ;;
          let start := getCellOffsets sh1 (v_x border) (v_y border) in
          sh2 <- lift (sheet w id) ;;
          let end_ := getCellOffsets sh2 (v_x border) (v_y border + v_height border) in
          drawCellBorder CellLayer
            (mkOptions
               (mkRect (fst start) (snd start)
                       (fst end_ - fst start) (snd end_ - snd start))
               Vertical (v_line border) (v_color border)))
  end.

(** Lines 185-280: what [drawSheetBorders] draws once it holds a
    dataset [d]. *)
Definition drawSheet (id : string) (d : JsBordersSheet) : Draw unit :=
  let bounds := getVisibleBounds w in
  let columnStart := getXPlacement w (bounds_left bounds) in
  let columnEnd := getXPlacement w (bounds_right bounds) in
  let rowStart := getYPlacement w (bounds_top bounds) in
  let rowEnd := getYPlacement w (bounds_bottom bounds) in
  forEach (allTier d columnStart columnEnd rowStart rowEnd) (runCall U w id (Some d)) ;;
  drawHorizontal id (Some d) ;;
  drawVertical id (Some d) ;;
  forEach (columnTier d columnStart columnEnd rowStart rowEnd) (runCall U w id (Some d)) ;;
  forEach (rowTier d columnStart columnEnd rowStart rowEnd) (runCall U w id (Some d)).

(** The effect of one [drawCellBorder] call on the scene: a new sprite,
    added to the container of its layer; the [BorderCull] of a
    [getSprite] sprite is pushed on [spriteLines] (lines 290 and 307),
    the one of a [getSpriteSheet] sprite is dropped (lines 112, 166). *)
Definition addSprite (s : State) (c : DrawCall) : State :=
  let ref := length (sprites s) in
  let sprites' := sprites s ++ [mkSprite (options c) true] in
  match target c with
  | SheetLayer =>
      mkState (sheetId s) (borders s) sprites' (cellLines s) (sheetLines s ++ [ref])
              (sheetLines_visible s) (sheetLines_alpha s) (spriteLines s)
              (dirty s) (viewport_dirty s)
  | CellLayer =>
      mkState (sheetId s) (borders s) sprites' (cellLines s ++ [ref]) (sheetLines s)
              (sheetLines_visible s) (sheetLines_alpha s)
              (spriteLines s ++ [mkCull ref (position (options c))])
              (dirty s) (viewport_dirty s)
  end.

(** Runs drawing code on the scene of [s]. *)
Definition perform {A} (c : Draw A) (s : State) : State * result A :=
  (fold_left addSprite (fst c) s, snd c).

(** Lines 176-281. *)
Definition drawSheetBorders (s : State) : State * result unit :=
  (* this.cellLines.removeChildren(); this.sheetLines.removeChildren();
     pixiApp.viewport.dirty = true; *)
  let s0 := mkState (sheetId s) (borders s) (sprites s) [] []
                    (sheetLines_visible s) (sheetLines_alpha s) (spriteLines s)
                    (dirty s) true in
  match borders s0 with
  | None => (s0, Ok tt)
  | Some d => perform (drawSheet (sheetId s0) d) s0
  end.

(** Lines 361-369: the handler of the [bordersSheet] event. *)
Definition drawSheetCells (id : string) (bs : option JsBordersSheet) (s : State)
    : State * result unit :=
  if String.eqb id (sheetId s) then
    let s1 := mkState (sheetId s) bs (sprites s) [] (sheetLines s)
                      (sheetLines_visible s) (sheetLines_alpha s) (spriteLines s)
                      (dirty s) (viewport_dirty s) in
    match perform (drawHorizontal (sheetId s1) (borders s1) ;;
                   drawVertical (sheetId s1) (borders s1)) s1 with
    | (s2, Ok _) =>
        (mkState (sheetId s2) (borders s2) (sprites s2) (cellLines s2) (sheetLines s2)
                 (sheetLines_visible s2) (sheetLines_alpha s2) (spriteLines s2)
                 true (viewport_dirty s2), Ok tt)
    | (s2, Throw m) => (s2, Throw m)
    end
  else (s, Ok tt).

(** Line 58. *)
Definition setDirty (s : State) : State :=
  mkState (sheetId s) (borders s) (sprites s) (cellLines s) (sheetLines s)
          (sheetLines_visible s) (sheetLines_alpha s) (spriteLines s)
          true (viewport_dirty s).

(** [sprite.sprite.visible = v] on the sprite object [ref]. *)
Fixpoint setVisible (ref : nat) (v : bool) (l : list Sprite) : list Sprite :=
  match l, ref with
  | [], _ => []
  | sp :: l', O => mkSprite (sprite_options sp) v :: l'
  | sp :: l', S ref' => sp :: setVisible ref' v l'
  end.

(** Lines 371-376. *)
Definition cull (s : State) : State :=
  let bounds := getVisibleBounds w in
  mkState (sheetId s) (borders s)
          (fold_left (fun sps c =>
                        setVisible (cull_sprite c) (intersects w (cull_rectangle c) bounds) sps)
                     (spriteLines s) (sprites s))
          (cellLines s) (sheetLines s)
          (sheetLines_visible s) (sheetLines_alpha s) (spriteLines s)
          (dirty s) (viewport_dirty s).

Definition set_sheetLines_visible (v : bool) (s : State) : State :=
  mkState (sheetId s) (borders s) (sprites s) (cellLines s) (sheetLines s)
          v (sheetLines_alpha s) (spriteLines s) (dirty s) (viewport_dirty s).

Definition set_sheetLines_alpha (a : float) (s : State) : State :=
  mkState (sheetId s) (borders s) (sprites s) (cellLines s) (sheetLines s)
          (sheetLines_visible s) a (spriteLines s) (dirty s) (viewport_dirty s).

Definition set_dirty (v : bool) (s : State) : State :=
  mkState (sheetId s) (borders s) (sprites s) (cellLines s) (sheetLines s)
          (sheetLines_visible s) (sheetLines_alpha s) (spriteLines s) v (viewport_dirty s).

(** Lines 381-391: the visibility and fade of the sheet lines. *)
Definition showSheetLines (s : State) : State * result unit :=
  if (scale_x w <? SCALE_TO_SHOW_SHEET_BORDERS)%float then
    (set_sheetLines_visible false s, Ok tt)
  else
    match drawSheetBorders (set_sheetLines_visible true s) with
    | (s1, Ok _) =>
        if (scale_x w <? SCALE_TO_SHOW_SHEET_BORDERS + FADE_SCALE)%float then
          (set_sheetLines_alpha
             ((scale_x w - SCALE_TO_SHOW_SHEET_BORDERS) / FADE_SCALE)%float s1, Ok tt)
        else (set_sheetLines_alpha 1%float s1, Ok tt)
    | (s1, Throw m) => (s1, Throw m)
    end.

(** Lines 378-394. *)
Definition update (s : State) : State * result unit :=
  let viewportDirty := viewport_dirty s in
  if negb (dirty s) && negb viewportDirty then (s, Ok tt)
  else
    match showSheetLines s with
    | (s1, Ok _) => (cull (set_dirty false s1), Ok tt)
    | (s1, Throw m) => (s1, Throw m)
    end.
End Component.

(* ===================================================================== *)
(** ** The imported helpers, from the specification                       *)
(* ===================================================================== *)

(** Modelled from the spec: [intersects.lineLineOneDimension] is defined
    in helpers/intersects.ts, outside [Borders.ts].
    Section 4.1, [intervals_overlap]: true iff the two closed-open
    intervals share any length; touching at a point does not count. *)
Definition spec_lineLineOneDimension (aStart aEnd bStart bEnd : Z) : bool :=
  Z.max aStart bStart <? Z.min aEnd bEnd.

(** Modelled from the spec: [divideLine] is defined in bordersUtil.ts,
    outside [Borders.ts].  Section 4.1, [subtract_interval], called as
    [Borders.ts] calls it, with the obstruction's position and size: the
    cursor is the end of the last emitted or skipped region and starts at
    the start of the span.  An obstruction that ends at or before the
    cursor is a no-op; otherwise the part of the remaining range before
    the obstruction, if any, is appended to the segments, and the cursor
    moves to the end of the obstruction, truncated to the end of the
    span. *)
Definition spec_divideLine (lines : list (Z * Z)) (current : option Z)
    (start end_ overlap overlapSize : Z) : list (Z * Z) * option Z :=
  let cursor := match current with Some c => c | None => start end in
  let overlapEnd := overlap + overlapSize in
  if overlapEnd <=? cursor then (lines, current)
  else ((if cursor <? overlap then lines ++ [(cursor, overlap)] else lines),
        Some (Z.min overlapEnd end_)).

(** Modelled from the spec: [findPerpendicularVerticalLines] and
    [findPerpendicularHorizontalLines] are defined in bordersUtil.ts,
    outside [Borders.ts].  Section 4.2, [find_perpendicular_crossings]:
    every override of the map whose index falls within [start, end) and
    that declares a relevant edge ([left] or [right] for a vertical line,
    [top] or [bottom] for a horizontal one) gives one obstruction of
    thickness 1 at its index, with the style of the later of its relevant
    edges; an absent map gives none (section 7). *)
Definition spec_findPerpendicularVerticalLines (start end_ : Z)
    (entries : option Overrides) : list JsBorderVertical :=
  match entries with
  | None => []
  | Some m =>
      flat_map (fun kv =>
        if (start <=? fst kv) && (fst kv <? end_) then
          match later (bsc_left (snd kv)) (bsc_right (snd kv)) with
          | Some e => [mkV (bst_color e) (bst_line e) 0 (fst kv) 1]
          | None => []
          end
        else []) m
  end.

Definition spec_findPerpendicularHorizontalLines (start end_ : Z)
    (entries : option Overrides) : list JsBorderHorizontal :=
  match entries with
  | None => []
  | Some m =>
      flat_map (fun kv =>
        if (start <=? fst kv) && (fst kv <? end_) then
          match later (bsc_top (snd kv)) (bsc_bottom (snd kv)) with
          | Some e => [mkH (bst_color e) (bst_line e) (fst kv) 0 1]
          | None => []
          end
        else []) m
  end.

Definition specUtil : BordersUtil :=
  mkUtil spec_divideLine spec_findPerpendicularVerticalLines
         spec_findPerpendicularHorizontalLines spec_lineLineOneDimension.

(* ===================================================================== *)
(** ** Coverage of a span, as the specification states it                 *)
(* ===================================================================== *)

(** Modelled from the spec: an obstruction as section 4.3, step 1,
    collects it, [{position, length, timestamp}].  [Borders.ts] has no
    such value: the segments it collects carry no timestamp. *)
Record Obstruction := mkObstruction {
  o_position : Z;
  o_length : Z;
  o_timestamp : Z
}.

(** Modelled from the spec: section 4.2, [find_perpendicular_crossings],
    with the timestamp it keeps.  Every override of the map whose index
    falls within [start, end) and that declares one of the two relevant
    edges gives the obstruction [{position, thickness = 1, timestamp}],
    the timestamp being the one of the later of these edges. *)
Definition spec_crossings (first second : BorderStyleCell -> option BorderStyleTimestamp)
    (start end_ : Z) (entries : option Overrides) : list Obstruction :=
  match entries with
  | None => []
  | Some m =>
      flat_map (fun kv =>
        if (start <=? fst kv) && (fst kv <? end_) then
          match later (first (snd kv)) (second (snd kv)) with
          | Some e => [mkObstruction (fst kv) 1 (bst_timestamp e)]
          | None => []
          end
        else []) m
  end.

(** The unit [i, i+1) of a line lies in the sub-interval [seg]. *)
Definition inSegment (i : Z) (seg : Z * Z) : bool :=
  (fst seg <=? i) && (i <? snd seg).

(** How many of the emitted sub-intervals draw the unit [i]. *)
Definition drawn (lines : list (Z * Z)) (i : Z) : nat :=
  length (filter (inSegment i) lines).

(** The unit [i] lies in an obstruction whose timestamp is greater than or
    equal to [ts], the timestamp of the drawn edge. *)
Definition obstructedFrom (ts : Z) (obstructions : list Obstruction) (i : Z) : bool :=
  existsb (fun o => (o_timestamp o >=? ts) &&
                    inSegment i (o_position o, o_position o + o_length o))
          obstructions.

(** Modelled from the spec: section 8, full coverage minus obstructions.
    The emitted sub-intervals [lines] and the obstructions whose timestamp
    is at least [ts] make up the span exactly: every unit of the span is
    drawn once and not so obstructed, or so obstructed and not drawn (no
    gaps, no double-draws), and nothing is drawn outside the span. *)
Definition fullCoverage (ts start end_ : Z) (lines : list (Z * Z))
    (obstructions : list Obstruction) : Prop :=
  forall i : Z,
    (start <= i < end_ ->
       (drawn lines i = 1%nat /\ obstructedFrom ts obstructions i = false) \/
       (drawn lines i = 0%nat /\ obstructedFrom ts obstructions i = true)) /\
    (~ start <= i < end_ -> drawn lines i = 0%nat).

(* ===================================================================== *)
(** ** Sample data                                                        *)
(* ===================================================================== *)

Definition black : Rgba := mkRgba 0 0 0 255.

Definition solid (ts : Z) : BorderStyleTimestamp := mkBST black "line1"%string ts.

Definition cleared (ts : Z) : BorderStyleTimestamp := mkBST black "clear"%string ts.

(** A sheet with columns 100 pixels wide and rows 20 pixels high. *)
Definition sampleSheet : Sheet :=
  mkSheet (fun c => inject_Z (100 * c)) (fun r => inject_Z (20 * r))
          (fun c r => (inject_Z (100 * c), inject_Z (20 * r))).

(** A viewport that shows columns 0 to 10 and rows 0 to 10 of the sheet
    ["sheet1"] at zoom [scale]. *)
Definition sampleWorld (scale : float) : World :=
  mkWorld (fun id => if String.eqb id "sheet1" then Some sampleSheet else None)
          (fun x => Qfloor (x / 100)) (fun y => Qfloor (y / 20))
          (mkBounds 0 1000 0 200) scale
          (fun r b =>
             Qle_bool (bounds_left b) (rect_x r + rect_width r) &&
             Qle_bool (rect_x r) (bounds_right b) &&
             Qle_bool (bounds_top b) (rect_y r + rect_height r) &&
             Qle_bool (rect_y r) (bounds_bottom b)).

(** One explicit vertical segment on column 3 covering row 4, and one
    explicit horizontal segment on row 3 covering column 4. *)
Definition crossing : JsBordersSheet :=
  mkBorders None None None
            (Some [mkH black "line1"%string 4 3 1])
            (Some [mkV black "line1"%string 3 4 1]).

(** The double that the literal [0.2] denotes, inside the fade band. *)
#[warnings="-inexact-float"]
Definition fadingZoom : float := 0.2.

Definition initial (bs : option JsBordersSheet) : State :=
  mkState "sheet1"%string bs [] [] [] true 1 [] false false.

(** Column 3 with a left edge set at time [ts], crossed by row 4, whose
    right edge was set at time 5. *)
Definition crossedColumn (ts : Z) : JsBordersSheet :=
  mkBorders None
            (Some [(3, mkBSC None None (Some (solid ts)) None)])
            (Some [(4, mkBSC None None None (Some (solid 5)))])
            None None.

(** Column 5 with a right edge and column 6 with a left edge. *)
Definition adjacentColumns (right5 left6 : BorderStyleTimestamp) : JsBordersSheet :=
  mkBorders None
            (Some [(5, mkBSC None None None (Some right5));
                   (6, mkBSC None None (Some left6) None)])
            None None None.

(** Row 5 with a bottom edge and row 6 with a top edge. *)
Definition adjacentRows (bottom5 top6 : BorderStyleTimestamp) : JsBordersSheet :=
  mkBorders None None
            (Some [(5, mkBSC None (Some bottom5) None None);
                   (6, mkBSC (Some top6) None None None)])
            None None.

(** Column 2 with a top edge, and an explicit horizontal segment on row 3
    under it. *)
Definition columnWithTop : JsBordersSheet :=
  mkBorders None (Some [(2, mkBSC (Some (solid 1)) None None None)]) None
            (Some [mkH black "line1"%string 2 3 1]) None.

(** Row 2 with a left edge, and an explicit vertical segment on column 3
    beside it. *)
Definition rowWithLeft : JsBordersSheet :=
  mkBorders None None (Some [(2, mkBSC None None (Some (solid 1)) None)]) None
            (Some [mkV black "line1"%string 3 2 1]).

(* ===================================================================== *)
(** ** Observations                                                       *)
(* ===================================================================== *)

(** The edge declaration a line drawer call draws. *)
Definition callBorder (c : LineCall) : BorderStyleTimestamp :=
  match c with
  | VerticalCall _ _ _ border _ => border
  | HorizontalCall _ _ _ border _ => border
  end.

(** The rectangles and styles of the children of a container, in order. *)
Definition emitted (s : State) (children : list nat) : list (option DrawOptions) :=
  map (fun ref => option_map sprite_options (nth_error (sprites s) ref)) children.

Definition onLayer (l : Layer) (c : DrawCall) : bool :=
  match l, target c with
  | CellLayer, CellLayer => true
  | SheetLayer, SheetLayer => true
  | _, _ => false
  end.

(** Every child of the two containers refers to a sprite object. *)
Definition validRefs (s : State) : Prop :=
  Forall (fun ref => (ref < length (sprites s))%nat) (sheetLines s) /\
  Forall (fun ref => (ref < length (sprites s))%nat) (cellLines s).

(** The drawing code a run of [drawSheetBorders] performs, as a function
    of the sheet id and the dataset. *)
Definition sheetBordersCalls (U : BordersUtil) (w : World)
    (id : string) (bs : option JsBordersSheet) : Draw unit :=
  match bs with
  | None => ret tt
  | Some d => drawSheet U w id d
  end.

(* ===================================================================== *)
(** ** What the drawers draw                                              *)
(* ===================================================================== *)

(** The primitive [drawScreenVerticalLine] draws for the sub-interval
    [seg] of a line on column [column] (lines 110-116). *)
Definition verticalRect (sh : Sheet) (column : Z) (border : BorderStyleTimestamp)
    (seg : Z * Z) : DrawCall :=
  mkCall SheetLayer
    (mkOptions
       (mkRect (getColumnX sh column) (getRowY sh (fst seg)) 0
               (getRowY sh (snd seg) - getRowY sh (fst seg)))
       Vertical (bst_line border) (bst_color border)).

(** The primitive [drawScreenHorizontalLine] draws for the sub-interval
    [seg] of a line on row [row] (lines 164-170). *)
Definition horizontalRect (sh : Sheet) (row : Z) (border : BorderStyleTimestamp)
    (seg : Z * Z) : DrawCall :=
  mkCall SheetLayer
    (mkOptions
       (mkRect (getColumnX sh (fst seg)) (getRowY sh row)
               (getColumnX sh (snd seg) - getColumnX sh (fst seg)) 0)
       Horizontal (bst_line border) (bst_color border)).

(** The primitives of one line drawer call, on the sheet [sh]. *)
Definition callRects (U : BordersUtil) (sh : Sheet) (bs : option JsBordersSheet)
    (c : LineCall) : list DrawCall :=
  match c with
  | VerticalCall rowStart rowEnd column border rows =>
      map (verticalRect sh column border) (verticalLines U bs rowStart rowEnd column rows)
  | HorizontalCall columnStart columnEnd row border columns =>
      map (horizontalRect sh row border) (horizontalLines U bs columnStart columnEnd row columns)
  end.

(** The primitive [drawHorizontal] draws for one explicit segment
    (lines 287-295). *)
Definition horizontalSegmentRect (sh : Sheet) (border : JsBorderHorizontal) : DrawCall :=
  mkCall CellLayer
    (mkOptions
       (mkRect (fst (getCellOffsets sh (h_x border) (h_y border)))
               (snd (getCellOffsets sh (h_x border) (h_y border)))
               (fst (getCellOffsets sh (h_x border + h_width border) (h_y border))
                - fst (getCellOffsets sh (h_x border) (h_y border)))
               (snd (getCellOffsets sh (h_x border + h_width border) (h_y border))
                - snd (getCellOffsets sh (h_x border) (h_y border))))
       Horizontal (h_line border) (h_color border)).

(** The primitive [drawVertical] draws for one explicit segment
    (lines 304-312). *)
Definition verticalSegmentRect (sh : Sheet) (border : JsBorderVertical) : DrawCall :=
  mkCall CellLayer
    (mkOptions
       (mkRect (fst (getCellOffsets sh (v_x border) (v_y border)))
               (snd (getCellOffsets sh (v_x border) (v_y border)))
               (fst (getCellOffsets sh (v_x border) (v_y border + v_height border))
                - fst (getCellOffsets sh (v_x border) (v_y border)))
               (snd (getCellOffsets sh (v_x border) (v_y border + v_height border))
                - snd (getCellOffsets sh (v_x border) (v_y border))))
       Vertical (v_line border) (v_color border)).

(** The explicit segments that are drawn: the ones that are not "clear". *)
Definition drawnHorizontal (bs : option JsBordersSheet) : list JsBorderHorizontal :=
  match borders_horizontal bs with
  | Some hs => filter (fun border => negb (is_clear (h_line border))) hs
  | None => []
  end.

Definition drawnVertical (bs : option JsBordersSheet) : list JsBorderVertical :=
  match borders_vertical bs with
  | Some vs => filter (fun border => negb (is_clear (v_line border))) vs
  | None => []
  end.

(** The index window of the viewport (lines 189-196). *)
Definition columnStartOf (w : World) : Z := getXPlacement w (bounds_left (getVisibleBounds w)).
Definition columnEndOf (w : World) : Z := getXPlacement w (bounds_right (getVisibleBounds w)).
Definition rowStartOf (w : World) : Z := getYPlacement w (bounds_top (getVisibleBounds w)).
Definition rowEndOf (w : World) : Z := getYPlacement w (bounds_bottom (getVisibleBounds w)).

(** The line drawer calls of a redraw, in order. *)
Definition sheetTiers (w : World) (d : JsBordersSheet) : list LineCall :=
  allTier d (columnStartOf w) (columnEndOf w) (rowStartOf w) (rowEndOf w)
  ++ columnTier d (columnStartOf w) (columnEndOf w) (rowStartOf w) (rowEndOf w)
  ++ rowTier d (columnStartOf w) (columnEndOf w) (rowStartOf w) (rowEndOf w).

(** The call asks for a horizontal line on row [y]. *)
Definition horizontalAt (y : Z) (call : LineCall) : bool :=
  match call with
  | HorizontalCall _ _ row _ _ => row =? y
  | VerticalCall _ _ _ _ _ => false
  end.

(** The call asks for a vertical line on column [x]. *)
Definition verticalAt (x : Z) (call : LineCall) : bool :=
  match call with
  | VerticalCall _ _ column _ _ => column =? x
  | HorizontalCall _ _ _ _ _ => false
  end.

(** The [BorderCull] pushed for the [k]-th draw call after [n] sprites. *)
Fixpoint newCulls (n : nat) (calls : list DrawCall) : list BorderCull :=
  match calls with
  | [] => []
  | c :: calls' =>
      match target c with
      | CellLayer => mkCull n (position (options c)) :: newCulls (S n) calls'
      | SheetLayer => newCulls (S n) calls'
      end
  end.

(** The references given to the sprites of the draw calls on one layer,
    the first sprite being the [n]-th of the store. *)
Fixpoint newRefs (layer : Layer) (n : nat) (calls : list DrawCall) : list nat :=
  match calls with
  | [] => []
  | c :: calls' =>
      if onLayer layer c then n :: newRefs layer (S n) calls'
      else newRefs layer (S n) calls'
  end.

(** Every [BorderCull] refers to a sprite object of its own. *)
Definition wellFormed (s : State) : Prop :=
  Forall (fun c => (cull_sprite c < length (sprites s))%nat) (spriteLines s) /\
  NoDup (map cull_sprite (spriteLines s)).

(** [sprite.visible] of the sprite object [ref]. *)
Definition visibleAt (s : State) (ref : nat) : option bool :=
  option_map sprite_visible (nth_error (sprites s) ref).

(** The sprite store after the loop of [cull] over [culls]. *)
Definition cullFold (w : World) (culls : list BorderCull) (sps : list Sprite) : list Sprite :=
  fold_left (fun sps c =>
               setVisible (cull_sprite c)
                          (intersects w (cull_rectangle c) (getVisibleBounds w)) sps)
            culls sps.

(** The span and the fixed coordinate of a call lie in the index window of
    the viewport, widened by one row and one column at the far side. *)
Definition inWindow (columnStart columnEnd rowStart rowEnd : Z) (call : LineCall) : Prop :=
  match call with
  | VerticalCall a b x _ _ =>
      rowStart <= a /\ b <= rowEnd + 1 /\ columnStart <= x <= columnEnd + 1
  | HorizontalCall a b y _ _ =>
      columnStart <= a /\ b <= columnEnd + 1 /\ rowStart <= y <= rowEnd + 1
  end.


(** A sheet-wide default with a top edge and a bottom edge set at the same
    time, and a left edge. *)
Definition sheetWide : JsBordersSheet :=
  mkBorders (Some (mkBSC (Some (cleared 2)) (Some (solid 2)) (Some (solid 1)) None))
            None None None None.

(** A renderer whose sheet is gone, with a dataset and a dirty mark. *)
Definition orphan : State :=
  mkState "sheet2"%string (Some (adjacentColumns (solid 2) (solid 1)))
          [] [] [] true 1 [] true false.

(** Explicit vertical segments on columns 3 and 7, both covering row 4. *)
Definition twoColumns : JsBordersSheet :=
  mkBorders None None None None
            (Some [mkV black "line1"%string 3 4 1; mkV black "line1"%string 7 4 1]).

(** The segment of [twoColumns] on column 3 alone. *)
Definition oneColumn : JsBordersSheet :=
  mkBorders None None None None (Some [mkV black "line1"%string 3 4 1]).


(* ===================================================================== *)
(** ** Arrays: pop and sort                                               *)
(* ===================================================================== *)

Lemma pop_None {A} (l : list A) : pop l = None -> l = [].
Proof. destruct l; [reflexivity | discriminate]. Qed.

Lemma pop_Some {A} (l : list A) x r : pop l = Some (x, r) -> l = r ++ [x].
Proof.
  destruct l as [|a l]; [discriminate|].
  intros H; injection H as <- <-.
  apply (@app_removelast_last A (a :: l) a). discriminate.
Qed.

Lemma insertBy_perm {A} (key : A -> Z) a l : Permutation (insertBy key a l) (a :: l).
Proof.
  induction l as [|b l IH]; simpl; [reflexivity|].
  destruct (key a <=? key b); [reflexivity|].
  rewrite IH. apply perm_swap.
Qed.

Lemma sortBy_perm {A} (key : A -> Z) l : Permutation (sortBy key l) l.
Proof.
  induction l as [|a l IH]; simpl; [reflexivity|].
  rewrite insertBy_perm. now constructor.
Qed.

Lemma insertBy_ascending {A} (key : A -> Z) a l :
  ascending key l -> ascending key (insertBy key a l).
Proof.
  unfold ascending. induction 1 as [|b l Hs IH Hb]; simpl.
  - repeat constructor.
  - destruct (key a <=? key b) eqn:E.
    + apply Z.leb_le in E. constructor; [now constructor|].
      constructor; [exact E|].
      rewrite Forall_forall in *. intros c Hc. specialize (Hb c Hc). lia.
    + apply Z.leb_gt in E. constructor; [exact IH|].
      rewrite Forall_forall in *. intros c Hc.
      apply (Permutation_in _ (insertBy_perm key a l)) in Hc.
      destruct Hc as [<-|Hc]; [lia | now apply Hb].
Qed.

Lemma sortBy_ascending {A} (key : A -> Z) l : ascending key (sortBy key l).
Proof.
  induction l as [|a l IH]; simpl; [constructor | now apply insertBy_ascending].
Qed.

(** The pop loop consumes the array from its last element to its first. *)
Lemma popLoop_fold (U : BordersUtil) {A} (pos len : A -> Z) start end_ overlaps lines current :
  popLoop U pos len start end_ overlaps lines current
  = fold_left (consume U pos len start end_) (rev overlaps) (lines, current).
Proof.
  funelim (popLoop U pos len start end_ overlaps lines current);
    match goal with
    | e : pop _ = None |- _ => rewrite (pop_None _ e); reflexivity
    | e : pop _ = Some _, IH : popLoop _ _ _ _ _ _ _ _ = fold_left _ _ _ |- _ =>
        rewrite (pop_Some _ e), IH, rev_app_distr; simpl;
        unfold consume at 3; simpl; now rewrite <- surjective_pairing
    end.
Qed.

Lemma resolveOverlaps_spec (U : BordersUtil) {A} (pos len : A -> Z) start end_ overlaps :
  resolveOverlaps U pos len start end_ overlaps
  = consumeDescending U pos len start end_ (sortBy pos overlaps).
Proof.
  unfold resolveOverlaps, consumeDescending, emitRest.
  rewrite popLoop_fold.
  now destruct (fold_left _ _ _).
Qed.

(** C1. A call of [drawScreenVerticalLine] or [drawScreenHorizontalLine]
    that collects obstructions sorts them ascending by position (the sorted
    array is a permutation of the collected one), consumes them through
    [divideLine] from the greatest position downward while accumulating the
    cursor, and then emits the whole span when the cursor is unset, else
    the remainder after the cursor exactly when the cursor is before the
    end of the span. *)
Theorem resolver_sorts_then_consumes_descending
    (U : BordersUtil) (bs : option JsBordersSheet) (start end_ fixed : Z)
    (entries : option Overrides) :
  (truthy (borders_vertical bs) || truthy entries = true ->
   exists sorted,
     Permutation sorted (verticalOverlaps U bs start end_ fixed entries) /\
     ascending v_y sorted /\
     verticalLines U bs start end_ fixed entries
     = emitRest start end_
         (fold_left (consume U v_y v_height start end_) (rev sorted) ([], None))) /\
  (truthy (borders_horizontal bs) || truthy entries = true ->
   exists sorted,
     Permutation sorted (horizontalOverlaps U bs start end_ fixed entries) /\
     ascending h_x sorted /\
     horizontalLines U bs start end_ fixed entries
     = emitRest start end_
         (fold_left (consume U h_x h_width start end_) (rev sorted) ([], None))).
Proof.
  split; intros Hsrc.
  - exists (sortBy v_y (verticalOverlaps U bs start end_ fixed entries)).
    split; [apply sortBy_perm|]. split; [apply sortBy_ascending|].
    unfold verticalLines. rewrite Hsrc. apply resolveOverlaps_spec.
  - exists (sortBy h_x (horizontalOverlaps U bs start end_ fixed entries)).
    split; [apply sortBy_perm|]. split; [apply sortBy_ascending|].
    unfold horizontalLines. rewrite Hsrc. apply resolveOverlaps_spec.
Qed.

Lemma resolver_sorts_then_consumes_descending_witness :
  (exists sorted,
     Permutation sorted (verticalOverlaps specUtil (Some crossing) 0 10 3 None) /\
     ascending v_y sorted /\
     verticalLines specUtil (Some crossing) 0 10 3 None
     = emitRest 0 10
         (fold_left (consume specUtil v_y v_height 0 10) (rev sorted) ([], None))) /\
  (exists sorted,
     Permutation sorted (horizontalOverlaps specUtil (Some crossing) 0 10 3 None) /\
     ascending h_x sorted /\
     horizontalLines specUtil (Some crossing) 0 10 3 None
     = emitRest 0 10
         (fold_left (consume specUtil h_x h_width 0 10) (rev sorted) ([], None))).
Proof.
  destruct (resolver_sorts_then_consumes_descending specUtil (Some crossing) 0 10 3 None)
    as [Hv Hh].
  split; [apply Hv; reflexivity | apply Hh; reflexivity].
Defined.

Example crossing_vertical_lines :
  verticalLines specUtil (Some crossing) 0 10 3 None = [(0, 4); (5, 10)].
Proof. reflexivity. Qed.

(* ===================================================================== *)
(** ** The resolver and the timestamps                                    *)
(* ===================================================================== *)

(** C2 fails on the code.  The header of [Borders.ts] (lines 5-11) says
    that a crossing row border splits a vertical line when it has a later
    timestamp, and the claim says the same of every obstruction.  The line
    drawers read only [border.line] and [border.color] of the edge they
    draw and hand the edge to no helper (lines 76-107, 130-161), so for
    every implementation of the imported helpers a line is split the same
    way whatever the timestamp of its edge.  Take column 3 with a left
    edge, crossed by the override of row 4 set at time 5, with rows 0 to 9
    in view: the column tier draws the edge over rows [0, 10), and no
    implementation of the helpers gives full coverage both when the edge
    was set at time 9 and when it was set at time 1.  With the helpers of
    the specification the failing edge is the one set at time 9: row 4 is
    left out although its override is older. *)
Theorem resolver_ignores_timestamps :
  (forall (U : BordersUtil) (w : World) id bs rowStart rowEnd column border rows ts,
     drawScreenVerticalLine U w id bs rowStart rowEnd column
       (mkBST (bst_color border) (bst_line border) ts) rows
     = drawScreenVerticalLine U w id bs rowStart rowEnd column border rows) /\
  (forall (U : BordersUtil) (w : World) id bs columnStart columnEnd row border columns ts,
     drawScreenHorizontalLine U w id bs columnStart columnEnd row
       (mkBST (bst_color border) (bst_line border) ts) columns
     = drawScreenHorizontalLine U w id bs columnStart columnEnd row border columns) /\
  (forall ts,
     columnTier (crossedColumn ts) 0 10 0 9
     = [VerticalCall 0 10 3 (solid ts) (b_rows (crossedColumn ts))]) /\
  (forall U : BordersUtil,
     ~ (fullCoverage 9 0 10
          (verticalLines U (Some (crossedColumn 9)) 0 10 3 (b_rows (crossedColumn 9)))
          (spec_crossings bsc_left bsc_right 0 10 (b_rows (crossedColumn 9))) /\
        fullCoverage 1 0 10
          (verticalLines U (Some (crossedColumn 1)) 0 10 3 (b_rows (crossedColumn 1)))
          (spec_crossings bsc_left bsc_right 0 10 (b_rows (crossedColumn 1))))) /\
  NoDup (map o_timestamp (spec_crossings bsc_left bsc_right 0 10 (b_rows (crossedColumn 9)))) /\
  verticalLines specUtil (Some (crossedColumn 9)) 0 10 3 (b_rows (crossedColumn 9))
  = [(0, 4); (5, 10)] /\
  ~ fullCoverage 9 0 10
      (verticalLines specUtil (Some (crossedColumn 9)) 0 10 3 (b_rows (crossedColumn 9)))
      (spec_crossings bsc_left bsc_right 0 10 (b_rows (crossedColumn 9))).
Proof.
  split; [reflexivity|]. split; [reflexivity|]. split; [reflexivity|].
  split; [|split; [|split]].
  - intros U [Hlater Hearlier].
    destruct (Hlater 4) as [H9 _]. destruct (Hearlier 4) as [H1 _].
    destruct (H9 ltac:(lia)) as [[Hd9 _]|[_ Ho9]]; [|vm_compute in Ho9; discriminate].
    destruct (H1 ltac:(lia)) as [[_ Ho1]|[Hd1 _]]; [vm_compute in Ho1; discriminate|].
    cut (1 = 0)%nat; [discriminate|]. rewrite <- Hd9. exact Hd1.
  - repeat constructor. intros [].
  - reflexivity.
  - intros H. destruct (H 4) as [H4 _].
    destruct (H4 ltac:(lia)) as [[Hd _]|[_ Ho]];
      [vm_compute in Hd | vm_compute in Ho]; discriminate.
Qed.

(* ===================================================================== *)
(** ** The column tier and the row tier                                   *)
(* ===================================================================== *)

Example later_right_wins :
  columnTier (adjacentColumns (solid 2) (solid 1)) 0 10 0 10
  = [VerticalCall 0 11 6 (solid 2) None].
Proof. reflexivity. Qed.

Example later_left_wins :
  columnTier (adjacentColumns (solid 1) (solid 2)) 0 10 0 10
  = [VerticalCall 0 11 6 (solid 2) None].
Proof. reflexivity. Qed.

(** C3 fails on equal timestamps.  Column 5 declares a right edge and
    column 6 a left edge, both at timestamp 1 (rows 5 and 6 likewise, a
    bottom and a top edge).  Neither edge is strictly later than the other,
    so both passes skip their edge: the tier makes no call, and a redraw
    leaves the sheet container empty. *)
Theorem equal_timestamps_draw_neither_edge :
  columnTier (adjacentColumns (solid 1) (solid 1)) 0 10 0 10 = [] /\
  rowTier (adjacentRows (solid 1) (solid 1)) 0 10 0 10 = [] /\
  fst (drawSheetBorders specUtil (sampleWorld 1)
         (initial (Some (adjacentColumns (solid 1) (solid 1)))))
  = mkState "sheet1" (Some (adjacentColumns (solid 1) (solid 1))) [] [] [] true 1 [] false true.
Proof. repeat split; reflexivity. Qed.

(** C4, as stated, fails.  Column 5 declares a "clear" right edge at
    timestamp 2 and column 6 a solid left edge at timestamp 1: the clear
    edge takes part in the comparison, wins it, and the left edge of
    column 6 is not drawn. *)
Lemma clear_neighbor_suppresses_later :
  is_clear (bst_line (cleared 2)) = true /\
  is_clear (bst_line (solid 1)) = false /\
  columnTier (adjacentColumns (cleared 2) (solid 1)) 0 10 0 10 = [] /\
  ~ In (VerticalCall 0 11 6 (solid 1) None)
       (columnTier (adjacentColumns (cleared 2) (solid 1)) 0 10 0 10).
Proof. repeat split; intros []. Qed.

Section TierFacts.
Context (d : JsBordersSheet) (columnStart columnEnd rowStart rowEnd : Z).

Lemma in_upto_calls {X} (f : Z -> X) c a b : In c (map f (upto a b)) -> exists y, c = f y.
Proof. intros H. apply in_map_iff in H. destruct H as (y & <- & _). now exists y. Qed.

Lemma columnCalls_not_clear columns x call :
  In call (columnCalls d columnStart columnEnd rowStart rowEnd columns x) ->
  is_clear (bst_line (callBorder call)) = false.
Proof.
  unfold columnCalls.
  destruct ((x >=? columnStart) && (x <=? columnEnd)); [|intros []].
  destruct (lookup columns x) as [column|]; [|intros []].
  intros H. repeat (apply in_app_or in H; destruct H as [H|H]).
  - destruct (bsc_left column) as [e|]; [|destruct H].
    destruct (is_clear (bst_line e)) eqn:E; simpl in H; [destruct H|].
    destruct (wins e _); [|destruct H]. destruct H as [<-|[]]. exact E.
  - destruct (bsc_right column) as [e|]; [|destruct H].
    destruct (is_clear (bst_line e)) eqn:E; simpl in H; [destruct H|].
    destruct (wins e _); [|destruct H]. destruct H as [<-|[]]. exact E.
  - destruct (bsc_top column) as [e|]; [|destruct H].
    destruct (is_clear (bst_line e)) eqn:E; simpl in H; [destruct H|].
    apply in_upto_calls in H. destruct H as (y & ->). exact E.
  - destruct (bsc_bottom column) as [e|]; [|destruct H].
    destruct (is_clear (bst_line e)) eqn:E; simpl in H; [destruct H|].
    apply in_upto_calls in H. destruct H as (y & ->). exact E.
Qed.

Lemma rowCalls_not_clear rows y call :
  In call (rowCalls d columnStart columnEnd rowStart rowEnd rows y) ->
  is_clear (bst_line (callBorder call)) = false.
Proof.
  unfold rowCalls.
  destruct ((y >=? rowStart) && (y <=? rowEnd)); [|intros []].
  destruct (lookup rows y) as [row|]; [|intros []].
  intros H. repeat (apply in_app_or in H; destruct H as [H|H]).
  - destruct (bsc_top row) as [e|]; [|destruct H].
    destruct (is_clear (bst_line e)) eqn:E; simpl in H; [destruct H|].
    destruct (wins e _); [|destruct H]. destruct H as [<-|[]]. exact E.
  - destruct (bsc_bottom row) as [e|]; [|destruct H].
    destruct (is_clear (bst_line e)) eqn:E; simpl in H; [destruct H|].
    destruct (wins e _); [|destruct H]. destruct H as [<-|[]]. exact E.
  - destruct (bsc_left row) as [e|]; [|destruct H].
    destruct (is_clear (bst_line e)) eqn:E; simpl in H; [destruct H|].
    apply in_upto_calls in H. destruct H as (x & ->). exact E.
  - destruct (bsc_right row) as [e|]; [|destruct H].
    destruct (is_clear (bst_line e)) eqn:E; simpl in H; [destruct H|].
    apply in_upto_calls in H. destruct H as (x & ->). exact E.
Qed.

Lemma tiers_not_clear call :
  In call (columnTier d columnStart columnEnd rowStart rowEnd) \/
  In call (rowTier d columnStart columnEnd rowStart rowEnd) ->
  is_clear (bst_line (callBorder call)) = false.
Proof.
  unfold columnTier, rowTier. intros [H|H].
  - destruct (b_columns d) as [columns|]; [|destruct H].
    apply in_flat_map in H. destruct H as (kv & _ & H).
    eapply columnCalls_not_clear; eauto.
  - destruct (b_rows d) as [rows|]; [|destruct H].
    apply in_flat_map in H. destruct H as (kv & _ & H).
    eapply rowCalls_not_clear; eauto.
Qed.

Lemma in_upto a b y : In y (upto a b) <-> a <= y <= b.
Proof.
  unfold upto. rewrite in_map_iff. split.
  - intros (n & <- & Hn). apply in_seq in Hn. lia.
  - intros Hy. exists (Z.to_nat (y - a)). split; [lia|]. apply in_seq. lia.
Qed.

Lemma lookup_In (m : Overrides) k v : lookup m k = Some v -> In (k, v) m.
Proof.
  induction m as [|[k' v'] m IH]; simpl; [discriminate|].
  destruct (k' =? k) eqn:E.
  - apply Z.eqb_eq in E. intros [= ->]. left. now subst.
  - intros H. right. now apply IH.
Qed.

Lemma wins_Some edge other :
  wins edge (Some other) = true <-> bst_timestamp other < bst_timestamp edge.
Proof. simpl. rewrite Z.gtb_ltb. apply Z.ltb_lt. Qed.

(** The vertical calls of one iteration of the column loop. *)
Lemma columnCalls_vertical columns k a b c e rws :
  In (VerticalCall a b c e rws)
     (columnCalls d columnStart columnEnd rowStart rowEnd columns k) <->
  columnStart <= k <= columnEnd /\ a = rowStart /\ b = rowEnd + 1 /\ rws = b_rows d /\
  is_clear (bst_line e) = false /\
  exists column, lookup columns k = Some column /\
    ((c = k /\ bsc_left column = Some e /\
      wins e (neighbor columns (k - 1) bsc_right) = true) \/
     (c = k + 1 /\ bsc_right column = Some e /\
      wins e (neighbor columns (k + 1) bsc_left) = true)).
Proof.
  unfold columnCalls.
  destruct ((k >=? columnStart) && (k <=? columnEnd)) eqn:Ev.
  2:{ split; [intros []|]. intros (Hk & _). exfalso.
      apply andb_false_iff in Ev. destruct Ev as [Ev|Ev];
        [rewrite Z.geb_leb in Ev; apply Z.leb_gt in Ev | apply Z.leb_gt in Ev]; lia. }
  apply andb_true_iff in Ev. destruct Ev as [Ev1 Ev2].
  apply Z.geb_le in Ev1. apply Z.leb_le in Ev2.
  destruct (lookup columns k) as [column|].
  2:{ split; [intros []|]. intros (_ & _ & _ & _ & _ & column & Hc & _). discriminate. }
  rewrite !in_app_iff. split.
  - intros [H|[H|[H|H]]].
    + destruct (bsc_left column) as [l|] eqn:Eedge; [|destruct H].
      destruct (is_clear (bst_line l)) eqn:El; simpl in H; [destruct H|].
      destruct (wins l _) eqn:Ew; [|destruct H].
      destruct H as [H|[]]. injection H as <- <- <- <- <-.
      repeat split; try lia; auto. exists column. split; [reflexivity|]. left. auto.
    + destruct (bsc_right column) as [r|] eqn:Eedge; [|destruct H].
      destruct (is_clear (bst_line r)) eqn:El; simpl in H; [destruct H|].
      destruct (wins r _) eqn:Ew; [|destruct H].
      destruct H as [H|[]]. injection H as <- <- <- <- <-.
      repeat split; try lia; auto. exists column. split; [reflexivity|]. right. auto.
    + destruct (bsc_top column) as [t|]; [|destruct H].
      destruct (negb _); [|destruct H].
      apply in_map_iff in H. destruct H as (y & Hy & _). discriminate.
    + destruct (bsc_bottom column) as [t|]; [|destruct H].
      destruct (negb _); [|destruct H].
      apply in_map_iff in H. destruct H as (y & Hy & _). discriminate.
  - intros (_ & -> & -> & -> & Hclear & column' & Hc & H). injection Hc as <-.
    destruct H as [(-> & Hl & Hw)|(-> & Hr & Hw)].
    + left. rewrite Hl, Hclear, Hw. now left.
    + right. left. rewrite Hr, Hclear, Hw. now left.
Qed.

(** The horizontal calls of one iteration of the column loop. *)
Lemma columnCalls_horizontal columns k a b y e cols :
  In (HorizontalCall a b y e cols)
     (columnCalls d columnStart columnEnd rowStart rowEnd columns k) ->
  a = k /\ b = k + 1 /\ cols = None /\ rowStart <= y <= rowEnd + 1.
Proof.
  unfold columnCalls.
  destruct ((k >=? columnStart) && (k <=? columnEnd)); [|intros []].
  destruct (lookup columns k) as [column|]; [|intros []].
  rewrite !in_app_iff. intros [H|[H|[H|H]]].
  - destruct (bsc_left column) as [l|]; [|destruct H].
    destruct (negb _); [|destruct H].
    destruct (wins l _); [|destruct H]. destruct H as [H|[]]. discriminate.
  - destruct (bsc_right column) as [l|]; [|destruct H].
    destruct (negb _); [|destruct H].
    destruct (wins l _); [|destruct H]. destruct H as [H|[]]. discriminate.
  - destruct (bsc_top column) as [t|]; [|destruct H].
    destruct (negb _); [|destruct H].
    apply in_map_iff in H. destruct H as (y' & Hy & Hin). injection Hy as <- <- <- <- <-.
    apply in_upto in Hin. auto.
  - destruct (bsc_bottom column) as [t|]; [|destruct H].
    destruct (negb _); [|destruct H].
    apply in_map_iff in H. destruct H as (y' & Hy & Hin). injection Hy as <- <- <- <- <-.
    apply in_upto in Hin. auto.
Qed.

(** The horizontal calls of one iteration of the row loop. *)
Lemma rowCalls_horizontal rows k a b r e cols :
  In (HorizontalCall a b r e cols)
     (rowCalls d columnStart columnEnd rowStart rowEnd rows k) <->
  rowStart <= k <= rowEnd /\ a = columnStart /\ b = columnEnd + 1 /\ cols = b_columns d /\
  is_clear (bst_line e) = false /\
  exists row, lookup rows k = Some row /\
    ((r = k /\ bsc_top row = Some e /\
      wins e (neighbor rows (k - 1) bsc_bottom) = true) \/
     (r = k + 1 /\ bsc_bottom row = Some e /\
      wins e (neighbor rows (k + 1) bsc_top) = true)).
Proof.
  unfold rowCalls.
  destruct ((k >=? rowStart) && (k <=? rowEnd)) eqn:Ev.
  2:{ split; [intros []|]. intros (Hk & _). exfalso.
      apply andb_false_iff in Ev. destruct Ev as [Ev|Ev];
        [rewrite Z.geb_leb in Ev; apply Z.leb_gt in Ev | apply Z.leb_gt in Ev]; lia. }
  apply andb_true_iff in Ev. destruct Ev as [Ev1 Ev2].
  apply Z.geb_le in Ev1. apply Z.leb_le in Ev2.
  destruct (lookup rows k) as [row|].
  2:{ split; [intros []|]. intros (_ & _ & _ & _ & _ & row & Hc & _). discriminate. }
  rewrite !in_app_iff. split.
  - intros [H|[H|[H|H]]].
    + destruct (bsc_top row) as [l|] eqn:Eedge; [|destruct H].
      destruct (is_clear (bst_line l)) eqn:El; simpl in H; [destruct H|].
      destruct (wins l _) eqn:Ew; [|destruct H].
      destruct H as [H|[]]. injection H as <- <- <- <- <-.
      repeat split; try lia; auto. exists row. split; [reflexivity|]. left. auto.
    + destruct (bsc_bottom row) as [l|] eqn:Eedge; [|destruct H].
      destruct (is_clear (bst_line l)) eqn:El; simpl in H; [destruct H|].
      destruct (wins l _) eqn:Ew; [|destruct H].
      destruct H as [H|[]]. injection H as <- <- <- <- <-.
      repeat split; try lia; auto. exists row. split; [reflexivity|]. right. auto.
    + destruct (bsc_left row) as [t|]; [|destruct H].
      destruct (negb _); [|destruct H].
      apply in_map_iff in H. destruct H as (y & Hy & _). discriminate.
    + destruct (bsc_right row) as [t|]; [|destruct H].
      destruct (negb _); [|destruct H].
      apply in_map_iff in H. destruct H as (y & Hy & _). discriminate.
  - intros (_ & -> & -> & -> & Hclear & row' & Hc & H). injection Hc as <-.
    destruct H as [(-> & Hl & Hw)|(-> & Hr & Hw)].
    + left. rewrite Hl, Hclear, Hw. now left.
    + right. left. rewrite Hr, Hclear, Hw. now left.
Qed.

(** The vertical calls of one iteration of the row loop. *)
Lemma rowCalls_vertical rows k a b x e rws :
  In (VerticalCall a b x e rws)
     (rowCalls d columnStart columnEnd rowStart rowEnd rows k) ->
  a = k /\ b = k + 1 /\ rws = None /\ columnStart <= x <= columnEnd + 1.
Proof.
  unfold rowCalls.
  destruct ((k >=? rowStart) && (k <=? rowEnd)); [|intros []].
  destruct (lookup rows k) as [row|]; [|intros []].
  rewrite !in_app_iff. intros [H|[H|[H|H]]].
  - destruct (bsc_top row) as [l|]; [|destruct H].
    destruct (negb _); [|destruct H].
    destruct (wins l _); [|destruct H]. destruct H as [H|[]]. discriminate.
  - destruct (bsc_bottom row) as [l|]; [|destruct H].
    destruct (negb _); [|destruct H].
    destruct (wins l _); [|destruct H]. destruct H as [H|[]]. discriminate.
  - destruct (bsc_left row) as [t|]; [|destruct H].
    destruct (negb _); [|destruct H].
    apply in_map_iff in H. destruct H as (y' & Hy & Hin). injection Hy as <- <- <- <- <-.
    apply in_upto in Hin. auto.
  - destruct (bsc_right row) as [t|]; [|destruct H].
    destruct (negb _); [|destruct H].
    apply in_map_iff in H. destruct H as (y' & Hy & Hin). injection Hy as <- <- <- <- <-.
    apply in_upto in Hin. auto.
Qed.
End TierFacts.

Section TierMembership.
Context (d : JsBordersSheet) (columnStart columnEnd rowStart rowEnd : Z).

Lemma neighbor_Some m k edge e :
  neighbor m k edge = Some e <-> exists cell, lookup m k = Some cell /\ edge cell = Some e.
Proof.
  unfold neighbor. destruct (lookup m k) as [cell|].
  - split; [intros H; now exists cell | intros (cell' & [= <-] & H); exact H].
  - split; [discriminate | intros (cell' & H & _); discriminate].
Qed.

Lemma columnTier_calls call :
  In call (columnTier d columnStart columnEnd rowStart rowEnd) <->
  exists columns k,
    b_columns d = Some columns /\ In k (map fst columns) /\
    In call (columnCalls d columnStart columnEnd rowStart rowEnd columns k).
Proof.
  unfold columnTier. destruct (b_columns d) as [columns|].
  - rewrite in_flat_map. split.
    + intros (kv & Hkv & H). exists columns, (fst kv). repeat split; auto.
      now apply in_map.
    + intros (columns' & k & [= <-] & Hk & H). apply in_map_iff in Hk.
      destruct Hk as (kv & <- & Hkv). now exists kv.
  - split; [intros [] | intros (? & ? & H & _); discriminate].
Qed.

Lemma rowTier_calls call :
  In call (rowTier d columnStart columnEnd rowStart rowEnd) <->
  exists rows k,
    b_rows d = Some rows /\ In k (map fst rows) /\
    In call (rowCalls d columnStart columnEnd rowStart rowEnd rows k).
Proof.
  unfold rowTier. destruct (b_rows d) as [rows|].
  - rewrite in_flat_map. split.
    + intros (kv & Hkv & H). exists rows, (fst kv). repeat split; auto.
      now apply in_map.
    + intros (rows' & k & [= <-] & Hk & H). apply in_map_iff in Hk.
      destruct Hk as (kv & <- & Hkv). now exists kv.
  - split; [intros [] | intros (? & ? & H & _); discriminate].
Qed.

Lemma lookup_key (m : Overrides) k v : lookup m k = Some v -> In k (map fst m).
Proof. intros H. apply lookup_In in H. now apply (in_map fst) in H. Qed.

(** The column tier draws the left edge [edge] of column [c] exactly
    when that edge wins against the right edge of column [c - 1], as
    long as that right edge, if any, is another declaration. *)
Lemma column_left_edge columns c column edge :
  b_columns d = Some columns -> columnStart <= c <= columnEnd ->
  lookup columns c = Some column -> bsc_left column = Some edge ->
  is_clear (bst_line edge) = false ->
  (wins edge (neighbor columns (c - 1) bsc_right) = true ->
   In (VerticalCall rowStart (rowEnd + 1) c edge (b_rows d))
      (columnTier d columnStart columnEnd rowStart rowEnd)) /\
  (forall other, neighbor columns (c - 1) bsc_right = Some other ->
   bst_timestamp edge < bst_timestamp other ->
   ~ In (VerticalCall rowStart (rowEnd + 1) c edge (b_rows d))
        (columnTier d columnStart columnEnd rowStart rowEnd)).
Proof.
  intros Hcols Hvis Hlook Hedge Hclear. split.
  - intros Hw. apply columnTier_calls. exists columns, c.
    split; [exact Hcols|]. split; [eapply lookup_key; eauto|].
    apply columnCalls_vertical. repeat split; try lia; auto.
    exists column. split; [exact Hlook|]. left. auto.
  - intros other Hn Hts Hin. apply columnTier_calls in Hin.
    destruct Hin as (columns' & k & Hc' & _ & Hin). rewrite Hcols in Hc'. injection Hc' as <-.
    apply columnCalls_vertical in Hin.
    destruct Hin as (_ & _ & _ & _ & _ & column' & Hl' & [(<- & _ & Hw)|(-> & Hr & _)]).
    + rewrite Hn in Hw. apply wins_Some in Hw. lia.
    + replace (k + 1 - 1) with k in Hn by lia.
      apply neighbor_Some in Hn. destruct Hn as (cell & Hcell & Hother).
      rewrite Hl' in Hcell. injection Hcell as <-. rewrite Hr in Hother.
      injection Hother as <-. lia.
Qed.

Lemma column_right_edge columns c column edge :
  b_columns d = Some columns -> columnStart <= c <= columnEnd ->
  lookup columns c = Some column -> bsc_right column = Some edge ->
  is_clear (bst_line edge) = false ->
  (wins edge (neighbor columns (c + 1) bsc_left) = true ->
   In (VerticalCall rowStart (rowEnd + 1) (c + 1) edge (b_rows d))
      (columnTier d columnStart columnEnd rowStart rowEnd)) /\
  (forall other, neighbor columns (c + 1) bsc_left = Some other ->
   bst_timestamp edge < bst_timestamp other ->
   ~ In (VerticalCall rowStart (rowEnd + 1) (c + 1) edge (b_rows d))
        (columnTier d columnStart columnEnd rowStart rowEnd)).
Proof.
  intros Hcols Hvis Hlook Hedge Hclear. split.
  - intros Hw. apply columnTier_calls. exists columns, c.
    split; [exact Hcols|]. split; [eapply lookup_key; eauto|].
    apply columnCalls_vertical. repeat split; try lia; auto.
    exists column. split; [exact Hlook|]. right. auto.
  - intros other Hn Hts Hin. apply columnTier_calls in Hin.
    destruct Hin as (columns' & k & Hc' & _ & Hin). rewrite Hcols in Hc'. injection Hc' as <-.
    apply columnCalls_vertical in Hin.
    destruct Hin as (_ & _ & _ & _ & _ & column' & Hl' & [(Hk & Hl & _)|(Hk & _ & Hw)]).
    + rewrite Hk in Hn.
      apply neighbor_Some in Hn. destruct Hn as (cell & Hcell & Hother).
      rewrite Hl' in Hcell. injection Hcell as <-. rewrite Hl in Hother.
      injection Hother as <-. lia.
    + assert (k = c) by lia. subst k. rewrite Hn in Hw. apply wins_Some in Hw. lia.
Qed.

Lemma row_top_edge rows r row edge :
  b_rows d = Some rows -> rowStart <= r <= rowEnd ->
  lookup rows r = Some row -> bsc_top row = Some edge ->
  is_clear (bst_line edge) = false ->
  (wins edge (neighbor rows (r - 1) bsc_bottom) = true ->
   In (HorizontalCall columnStart (columnEnd + 1) r edge (b_columns d))
      (rowTier d columnStart columnEnd rowStart rowEnd)) /\
  (forall other, neighbor rows (r - 1) bsc_bottom = Some other ->
   bst_timestamp edge < bst_timestamp other ->
   ~ In (HorizontalCall columnStart (columnEnd + 1) r edge (b_columns d))
        (rowTier d columnStart columnEnd rowStart rowEnd)).
Proof.
  intros Hrows Hvis Hlook Hedge Hclear. split.
  - intros Hw. apply rowTier_calls. exists rows, r.
    split; [exact Hrows|]. split; [eapply lookup_key; eauto|].
    apply rowCalls_horizontal. repeat split; try lia; auto.
    exists row. split; [exact Hlook|]. left. auto.
  - intros other Hn Hts Hin. apply rowTier_calls in Hin.
    destruct Hin as (rows' & k & Hc' & _ & Hin). rewrite Hrows in Hc'. injection Hc' as <-.
    apply rowCalls_horizontal in Hin.
    destruct Hin as (_ & _ & _ & _ & _ & row' & Hl' & [(<- & _ & Hw)|(-> & Hr & _)]).
    + rewrite Hn in Hw. apply wins_Some in Hw. lia.
    + replace (k + 1 - 1) with k in Hn by lia.
      apply neighbor_Some in Hn. destruct Hn as (cell & Hcell & Hother).
      rewrite Hl' in Hcell. injection Hcell as <-. rewrite Hr in Hother.
      injection Hother as <-. lia.
Qed.

Lemma row_bottom_edge rows r row edge :
  b_rows d = Some rows -> rowStart <= r <= rowEnd ->
  lookup rows r = Some row -> bsc_bottom row = Some edge ->
  is_clear (bst_line edge) = false ->
  (wins edge (neighbor rows (r + 1) bsc_top) = true ->
   In (HorizontalCall columnStart (columnEnd + 1) (r + 1) edge (b_columns d))
      (rowTier d columnStart columnEnd rowStart rowEnd)) /\
  (forall other, neighbor rows (r + 1) bsc_top = Some other ->
   bst_timestamp edge < bst_timestamp other ->
   ~ In (HorizontalCall columnStart (columnEnd + 1) (r + 1) edge (b_columns d))
        (rowTier d columnStart columnEnd rowStart rowEnd)).
Proof.
  intros Hrows Hvis Hlook Hedge Hclear. split.
  - intros Hw. apply rowTier_calls. exists rows, r.
    split; [exact Hrows|]. split; [eapply lookup_key; eauto|].
    apply rowCalls_horizontal. repeat split; try lia; auto.
    exists row. split; [exact Hlook|]. right. auto.
  - intros other Hn Hts Hin. apply rowTier_calls in Hin.
    destruct Hin as (rows' & k & Hc' & _ & Hin). rewrite Hrows in Hc'. injection Hc' as <-.
    apply rowCalls_horizontal in Hin.
    destruct Hin as (_ & _ & _ & _ & _ & row' & Hl' & [(Hk & Hl & _)|(Hk & _ & Hw)]).
    + rewrite Hk in Hn.
      apply neighbor_Some in Hn. destruct Hn as (cell & Hcell & Hother).
      rewrite Hl' in Hcell. injection Hcell as <-. rewrite Hl in Hother.
      injection Hother as <-. lia.
    + assert (k = r) by lia. subst k. rewrite Hn in Hw. apply wins_Some in Hw. lia.
Qed.
End TierMembership.

Lemma forEach_calls {A} (l : list A) (f : A -> Draw unit) c :
  In c (fst (forEach l f)) -> exists a, In a l /\ In c (fst (f a)).
Proof.
  induction l as [|a l IH]; simpl; [intros []|].
  unfold bind. destruct (snd (f a)); simpl.
  - rewrite in_app_iff. intros [H|H].
    + exists a. auto.
    + destruct (IH H) as (a' & Ha' & Hc). exists a'. auto.
  - intros H. exists a. auto.
Qed.

Lemma drawHorizontal_not_clear w id bs call :
  In call (fst (drawHorizontal w id bs)) ->
  target call = CellLayer /\ is_clear (line_type (options call)) = false.
Proof.
  unfold drawHorizontal. destruct (borders_horizontal bs) as [hs|]; [|intros []].
  intros H. apply forEach_calls in H. destruct H as (border & _ & H).
  destruct (is_clear (h_line border)) eqn:E; [destruct H|].
  unfold bind, lift in H. simpl in H.
  destruct (sheet w id); simpl in H; [|destruct H].
  destruct H as [<-|[]]. split; [reflexivity | exact E].
Qed.

Lemma drawVertical_not_clear w id bs call :
  In call (fst (drawVertical w id bs)) ->
  target call = CellLayer /\ is_clear (line_type (options call)) = false.
Proof.
  unfold drawVertical. destruct (borders_vertical bs) as [vs|]; [|intros []].
  intros H. apply forEach_calls in H. destruct H as (border & _ & H).
  destruct (is_clear (v_line border)) eqn:E; [destruct H|].
  unfold bind, lift in H. simpl in H.
  destruct (sheet w id); simpl in H; [|destruct H].
  destruct H as [<-|[]]. split; [reflexivity | exact E].
Qed.

(** C4, as amended.  No call of the column tier or of the row tier draws
    a declaration whose line kind is "clear", and no explicit segment
    whose line kind is "clear" is drawn.  A "clear" edge of a
    neighboring column or row takes part in the precedence comparison with
    its timestamp: when it is strictly earlier than the adjacent non-clear
    edge, that edge is drawn; when it is strictly later, that edge is not
    drawn. *)
Theorem clear_edge_is_not_drawn_and_is_compared_by_timestamp
    (w : World) (d : JsBordersSheet) (columnStart columnEnd rowStart rowEnd : Z) :
  (forall call,
     In call (columnTier d columnStart columnEnd rowStart rowEnd) \/
     In call (rowTier d columnStart columnEnd rowStart rowEnd) ->
     is_clear (bst_line (callBorder call)) = false) /\
  (forall id bs call,
     In call (fst (drawHorizontal w id bs)) \/ In call (fst (drawVertical w id bs)) ->
     is_clear (line_type (options call)) = false) /\
  (forall columns c column edge other,
     b_columns d = Some columns -> columnStart <= c <= columnEnd ->
     lookup columns c = Some column ->
     is_clear (bst_line edge) = false -> is_clear (bst_line other) = true ->
     (bsc_left column = Some edge -> neighbor columns (c - 1) bsc_right = Some other ->
      (bst_timestamp other < bst_timestamp edge ->
       In (VerticalCall rowStart (rowEnd + 1) c edge (b_rows d))
          (columnTier d columnStart columnEnd rowStart rowEnd)) /\
      (bst_timestamp edge < bst_timestamp other ->
       ~ In (VerticalCall rowStart (rowEnd + 1) c edge (b_rows d))
            (columnTier d columnStart columnEnd rowStart rowEnd))) /\
     (bsc_right column = Some edge -> neighbor columns (c + 1) bsc_left = Some other ->
      (bst_timestamp other < bst_timestamp edge ->
       In (VerticalCall rowStart (rowEnd + 1) (c + 1) edge (b_rows d))
          (columnTier d columnStart columnEnd rowStart rowEnd)) /\
      (bst_timestamp edge < bst_timestamp other ->
       ~ In (VerticalCall rowStart (rowEnd + 1) (c + 1) edge (b_rows d))
            (columnTier d columnStart columnEnd rowStart rowEnd)))) /\
  (forall rows r row edge other,
     b_rows d = Some rows -> rowStart <= r <= rowEnd ->
     lookup rows r = Some row ->
     is_clear (bst_line edge) = false -> is_clear (bst_line other) = true ->
     (bsc_top row = Some edge -> neighbor rows (r - 1) bsc_bottom = Some other ->
      (bst_timestamp other < bst_timestamp edge ->
       In (HorizontalCall columnStart (columnEnd + 1) r edge (b_columns d))
          (rowTier d columnStart columnEnd rowStart rowEnd)) /\
      (bst_timestamp edge < bst_timestamp other ->
       ~ In (HorizontalCall columnStart (columnEnd + 1) r edge (b_columns d))
            (rowTier d columnStart columnEnd rowStart rowEnd))) /\
     (bsc_bottom row = Some edge -> neighbor rows (r + 1) bsc_top = Some other ->
      (bst_timestamp other < bst_timestamp edge ->
       In (HorizontalCall columnStart (columnEnd + 1) (r + 1) edge (b_columns d))
          (rowTier d columnStart columnEnd rowStart rowEnd)) /\
      (bst_timestamp edge < bst_timestamp other ->
       ~ In (HorizontalCall columnStart (columnEnd + 1) (r + 1) edge (b_columns d))
            (rowTier d columnStart columnEnd rowStart rowEnd)))).
Proof.
  split; [|split; [|split]].
  - apply tiers_not_clear.
  - intros id bs call [H|H];
      [apply drawHorizontal_not_clear in H | apply drawVertical_not_clear in H]; apply H.
  - intros columns c column edge other Hcols Hvis Hlook Hclear _. split.
    + intros Hedge Hn.
      destruct (@column_left_edge d columnStart columnEnd rowStart rowEnd columns c column edge
                  Hcols Hvis Hlook Hedge Hclear) as [Hdraw Hskip].
      split; [intros Hts; apply Hdraw; rewrite Hn; now apply wins_Some | now apply Hskip].
    + intros Hedge Hn.
      destruct (@column_right_edge d columnStart columnEnd rowStart rowEnd columns c column edge
                  Hcols Hvis Hlook Hedge Hclear) as [Hdraw Hskip].
      split; [intros Hts; apply Hdraw; rewrite Hn; now apply wins_Some | now apply Hskip].
  - intros rows r row edge other Hrows Hvis Hlook Hclear _. split.
    + intros Hedge Hn.
      destruct (@row_top_edge d columnStart columnEnd rowStart rowEnd rows r row edge
                  Hrows Hvis Hlook Hedge Hclear) as [Hdraw Hskip].
      split; [intros Hts; apply Hdraw; rewrite Hn; now apply wins_Some | now apply Hskip].
    + intros Hedge Hn.
      destruct (@row_bottom_edge d columnStart columnEnd rowStart rowEnd rows r row edge
                  Hrows Hvis Hlook Hedge Hclear) as [Hdraw Hskip].
      split; [intros Hts; apply Hdraw; rewrite Hn; now apply wins_Some | now apply Hskip].
Qed.

Lemma clear_edge_is_not_drawn_and_is_compared_by_timestamp_witness :
  is_clear (bst_line (callBorder (VerticalCall 0 11 6 (solid 2) None))) = false /\
  In (VerticalCall 0 11 6 (solid 2) None)
     (columnTier (adjacentColumns (cleared 1) (solid 2)) 0 10 0 10) /\
  ~ In (VerticalCall 0 11 6 (solid 1) None)
       (columnTier (adjacentColumns (cleared 2) (solid 1)) 0 10 0 10) /\
  In (VerticalCall 0 11 6 (solid 2) None)
     (columnTier (adjacentColumns (solid 2) (cleared 1)) 0 10 0 10) /\
  ~ In (VerticalCall 0 11 6 (solid 1) None)
       (columnTier (adjacentColumns (solid 1) (cleared 2)) 0 10 0 10) /\
  In (HorizontalCall 0 11 6 (solid 2) None)
     (rowTier (adjacentRows (cleared 1) (solid 2)) 0 10 0 10) /\
  ~ In (HorizontalCall 0 11 6 (solid 1) None)
       (rowTier (adjacentRows (cleared 2) (solid 1)) 0 10 0 10) /\
  In (HorizontalCall 0 11 6 (solid 2) None)
     (rowTier (adjacentRows (solid 2) (cleared 1)) 0 10 0 10) /\
  ~ In (HorizontalCall 0 11 6 (solid 1) None)
       (rowTier (adjacentRows (solid 1) (cleared 2)) 0 10 0 10).
Proof.
  pose (cols a b := [(5, mkBSC None None None (Some a)); (6, mkBSC None None (Some b) None)]).
  pose (rws a b := [(5, mkBSC None (Some a) None None); (6, mkBSC (Some b) None None None)]).
  pose proof (fun a b =>
    proj1 (proj2 (proj2 (clear_edge_is_not_drawn_and_is_compared_by_timestamp
                           (sampleWorld 1) (adjacentColumns a b) 0 10 0 10)))
          (cols a b)) as Hcol.
  pose proof (fun a b =>
    proj2 (proj2 (proj2 (clear_edge_is_not_drawn_and_is_compared_by_timestamp
                           (sampleWorld 1) (adjacentRows a b) 0 10 0 10)))
          (rws a b)) as Hrow.
  split.
  { apply (proj1 (clear_edge_is_not_drawn_and_is_compared_by_timestamp (sampleWorld 1)
                    (adjacentColumns (cleared 1) (solid 2)) 0 10 0 10)).
    left. simpl. now left. }
  split.
  { refine (proj1 (proj1 (Hcol (cleared 1) (solid 2) 6 _ (solid 2) (cleared 1)
      eq_refl _ eq_refl eq_refl eq_refl) eq_refl eq_refl) _); simpl; lia. }
  split.
  { refine (proj2 (proj1 (Hcol (cleared 2) (solid 1) 6 _ (solid 1) (cleared 2)
      eq_refl _ eq_refl eq_refl eq_refl) eq_refl eq_refl) _); simpl; lia. }
  split.
  { refine (proj1 (proj2 (Hcol (solid 2) (cleared 1) 5 _ (solid 2) (cleared 1)
      eq_refl _ eq_refl eq_refl eq_refl) eq_refl eq_refl) _); simpl; lia. }
  split.
  { refine (proj2 (proj2 (Hcol (solid 1) (cleared 2) 5 _ (solid 1) (cleared 2)
      eq_refl _ eq_refl eq_refl eq_refl) eq_refl eq_refl) _); simpl; lia. }
  split.
  { refine (proj1 (proj1 (Hrow (cleared 1) (solid 2) 6 _ (solid 2) (cleared 1)
      eq_refl _ eq_refl eq_refl eq_refl) eq_refl eq_refl) _); simpl; lia. }
  split.
  { refine (proj2 (proj1 (Hrow (cleared 2) (solid 1) 6 _ (solid 1) (cleared 2)
      eq_refl _ eq_refl eq_refl eq_refl) eq_refl eq_refl) _); simpl; lia. }
  split.
  { refine (proj1 (proj2 (Hrow (solid 2) (cleared 1) 5 _ (solid 2) (cleared 1)
      eq_refl _ eq_refl eq_refl eq_refl) eq_refl eq_refl) _); simpl; lia. }
  { refine (proj2 (proj2 (Hrow (solid 1) (cleared 2) 5 _ (solid 1) (cleared 2)
      eq_refl _ eq_refl eq_refl eq_refl) eq_refl eq_refl) _); simpl; lia. }
Defined.

Lemma horizontalLines_segments U bs bs' a b y cols :
  borders_horizontal bs' = borders_horizontal bs ->
  horizontalLines U bs' a b y cols = horizontalLines U bs a b y cols.
Proof. unfold horizontalLines, horizontalOverlaps. now intros ->. Qed.

Lemma verticalLines_segments U bs bs' a b x rws :
  borders_vertical bs' = borders_vertical bs ->
  verticalLines U bs' a b x rws = verticalLines U bs a b x rws.
Proof. unfold verticalLines, verticalOverlaps. now intros ->. Qed.

(** C10.  Every horizontal line the column tier draws (the top and bottom
    edges of a column override) has unit length and is resolved with no
    override map: what it draws is the same for every dataset with the same
    explicit horizontal segments, whatever its per-column and per-row
    overrides.  Symmetrically, every vertical line the row tier draws (the
    left and right edges of a row override) has unit length, no override
    map, and depends on the explicit vertical segments only. *)
Theorem perpendicular_edges_ignore_overrides
    (U : BordersUtil) (w : World) (id : string)
    (d : JsBordersSheet) (columnStart columnEnd rowStart rowEnd : Z) :
  (forall a b y e cols,
     In (HorizontalCall a b y e cols) (columnTier d columnStart columnEnd rowStart rowEnd) ->
     b = a + 1 /\ cols = None /\
     forall d', b_horizontal d' = b_horizontal d ->
       runCall U w id (Some d') (HorizontalCall a b y e cols)
       = runCall U w id (Some d) (HorizontalCall a b y e cols)) /\
  (forall a b x e rws,
     In (VerticalCall a b x e rws) (rowTier d columnStart columnEnd rowStart rowEnd) ->
     b = a + 1 /\ rws = None /\
     forall d', b_vertical d' = b_vertical d ->
       runCall U w id (Some d') (VerticalCall a b x e rws)
       = runCall U w id (Some d) (VerticalCall a b x e rws)).
Proof.
  split.
  - intros a b y e cols Hin. apply columnTier_calls in Hin.
    destruct Hin as (columns & k & _ & _ & Hin).
    apply columnCalls_horizontal in Hin. destruct Hin as (-> & -> & -> & _).
    split; [reflexivity|]. split; [reflexivity|].
    intros d' Hd. simpl. unfold drawScreenHorizontalLine.
    now rewrite (@horizontalLines_segments U (Some d) (Some d')).
  - intros a b x e rws Hin. apply rowTier_calls in Hin.
    destruct Hin as (rows & k & _ & _ & Hin).
    apply rowCalls_vertical in Hin. destruct Hin as (-> & -> & -> & _).
    split; [reflexivity|]. split; [reflexivity|].
    intros d' Hd. simpl. unfold drawScreenVerticalLine.
    now rewrite (@verticalLines_segments U (Some d) (Some d')).
Qed.

Lemma perpendicular_edges_ignore_overrides_witness :
  (3 = 2 + 1 /\ @None Overrides = None /\
   forall d', b_horizontal d' = b_horizontal columnWithTop ->
     runCall specUtil (sampleWorld 1) "sheet1" (Some d') (HorizontalCall 2 3 3 (solid 1) None)
     = runCall specUtil (sampleWorld 1) "sheet1" (Some columnWithTop)
               (HorizontalCall 2 3 3 (solid 1) None)) /\
  (3 = 2 + 1 /\ @None Overrides = None /\
   forall d', b_vertical d' = b_vertical rowWithLeft ->
     runCall specUtil (sampleWorld 1) "sheet1" (Some d') (VerticalCall 2 3 3 (solid 1) None)
     = runCall specUtil (sampleWorld 1) "sheet1" (Some rowWithLeft)
               (VerticalCall 2 3 3 (solid 1) None)).
Proof.
  split.
  - apply (proj1 (perpendicular_edges_ignore_overrides specUtil (sampleWorld 1) "sheet1"
                    columnWithTop 0 10 0 10)).
    vm_compute. do 3 right. now left.
  - apply (proj2 (perpendicular_edges_ignore_overrides specUtil (sampleWorld 1) "sheet1"
                    rowWithLeft 0 10 0 10)).
    vm_compute. do 3 right. now left.
Defined.

(* ===================================================================== *)
(** ** The scene after a redraw                                           *)
(* ===================================================================== *)

Lemma emitted_addSprite s c children :
  Forall (fun ref => (ref < length (sprites s))%nat) children ->
  emitted (addSprite s c) children = emitted s children.
Proof.
  intros H. unfold emitted. apply map_ext_in. intros ref Hin.
  rewrite Forall_forall in H. specialize (H ref Hin).
  assert (E : sprites (addSprite s c) = sprites s ++ [mkSprite (options c) true])
    by (unfold addSprite; destruct (target c); reflexivity).
  rewrite E, nth_error_app1 by exact H. reflexivity.
Qed.

Lemma emitted_new s c :
  emitted (addSprite s c) [length (sprites s)] = [Some (options c)].
Proof.
  unfold emitted. simpl.
  assert (E : sprites (addSprite s c) = sprites s ++ [mkSprite (options c) true])
    by (unfold addSprite; destruct (target c); reflexivity).
  rewrite E, nth_error_app2, Nat.sub_diag by lia. reflexivity.
Qed.

Lemma emitted_app s l1 l2 : emitted s (l1 ++ l2) = emitted s l1 ++ emitted s l2.
Proof. apply map_app. Qed.

Lemma addSprite_valid s c : validRefs s -> validRefs (addSprite s c).
Proof.
  unfold validRefs, addSprite. intros [Hs Hc].
  destruct (target c); simpl; rewrite ?Forall_app, !length_app; simpl;
    repeat split; try (repeat constructor; lia);
    (eapply Forall_impl; [|eassumption]); simpl; intros; lia.
Qed.

Lemma addSprite_emitted s c :
  validRefs s ->
  emitted (addSprite s c) (sheetLines (addSprite s c))
  = emitted s (sheetLines s) ++ (if onLayer SheetLayer c then [Some (options c)] else []) /\
  emitted (addSprite s c) (cellLines (addSprite s c))
  = emitted s (cellLines s) ++ (if onLayer CellLayer c then [Some (options c)] else []).
Proof.
  intros [Hs Hc]. unfold onLayer.
  assert (Es : sheetLines (addSprite s c)
               = sheetLines s ++ match target c with SheetLayer => [length (sprites s)] | _ => [] end)
    by (unfold addSprite; destruct (target c); simpl; now rewrite ?app_nil_r).
  assert (Ec : cellLines (addSprite s c)
               = cellLines s ++ match target c with CellLayer => [length (sprites s)] | _ => [] end)
    by (unfold addSprite; destruct (target c); simpl; now rewrite ?app_nil_r).
  rewrite Es, Ec, !emitted_app, (@emitted_addSprite s c _ Hs), (@emitted_addSprite s c _ Hc).
  destruct (target c) eqn:Et; rewrite ?emitted_new; split; reflexivity.
Qed.

Lemma perform_emitted (calls : list DrawCall) : forall s,
  validRefs s ->
  let s' := fold_left addSprite calls s in
  emitted s' (sheetLines s')
  = emitted s (sheetLines s) ++ map (fun c => Some (options c)) (filter (onLayer SheetLayer) calls) /\
  emitted s' (cellLines s')
  = emitted s (cellLines s) ++ map (fun c => Some (options c)) (filter (onLayer CellLayer) calls) /\
  sheetId s' = sheetId s /\ borders s' = borders s /\
  dirty s' = dirty s /\ viewport_dirty s' = viewport_dirty s /\
  sheetLines_visible s' = sheetLines_visible s /\ sheetLines_alpha s' = sheetLines_alpha s.
Proof.
  induction calls as [|c calls IH]; intros s Hv; simpl.
  - rewrite !app_nil_r. repeat split; reflexivity.
  - destruct (IH (addSprite s c) (@addSprite_valid s c Hv)) as (Hs & Hc & Hid & Hb & Hd & Hvd & Hvis & Ha).
    destruct (@addSprite_emitted s c Hv) as [Es Ec].
    simpl in Hs, Hc. rewrite Hs, Hc, Es, Ec, Hid, Hb, Hd, Hvd, Hvis, Ha, <- !app_assoc.
    split; [|split; [|unfold addSprite; destruct (target c); repeat split; reflexivity]].
    + f_equal. unfold onLayer. now destruct (target c).
    + f_equal. unfold onLayer. now destruct (target c).
Qed.

Section Idempotence.
Context (U : BordersUtil) (w : World).

Lemma drawSheetBorders_emitted s :
  let s' := fst (drawSheetBorders U w s) in
  let c := sheetBordersCalls U w (sheetId s) (borders s) in
  emitted s' (sheetLines s') = map (fun c => Some (options c)) (filter (onLayer SheetLayer) (fst c)) /\
  emitted s' (cellLines s') = map (fun c => Some (options c)) (filter (onLayer CellLayer) (fst c)) /\
  snd (drawSheetBorders U w s) = snd c /\
  sheetId s' = sheetId s /\ borders s' = borders s /\
  dirty s' = dirty s /\ viewport_dirty s' = true /\
  sheetLines_visible s' = sheetLines_visible s /\ sheetLines_alpha s' = sheetLines_alpha s.
Proof.
  unfold drawSheetBorders, sheetBordersCalls. simpl.
  destruct (borders s) as [d|] eqn:Eb.
  - unfold perform. simpl.
    set (s0 := mkState _ _ _ _ _ _ _ _ _ _).
    assert (Hv : validRefs s0) by (split; constructor).
    destruct (@perform_emitted (fst (drawSheet U w (sheetId s) d)) s0 Hv)
      as (Hs & Hc & Hid & Hb & Hd & Hvd & Hvis & Ha).
    simpl in *. rewrite Hs, Hc, Hid, Hb, Hd, Hvd, Hvis, Ha.
    repeat split; reflexivity.
  - simpl. repeat split; auto.
Qed.

(** C5.  Two runs of [drawSheetBorders] in a row, with the dataset and
    the viewport unchanged, leave the same rectangles and styles
    ([sheetRects], [cellRects]), in the same order, in the sheet container
    and in the cell container, and end the same way. *)
Theorem drawSheetBorders_idempotent (s : State) :
  let run1 := drawSheetBorders U w s in
  let run2 := drawSheetBorders U w (fst run1) in
  exists sheetRects cellRects : list DrawOptions,
    emitted (fst run1) (sheetLines (fst run1)) = map Some sheetRects /\
    emitted (fst run2) (sheetLines (fst run2)) = map Some sheetRects /\
    emitted (fst run1) (cellLines (fst run1)) = map Some cellRects /\
    emitted (fst run2) (cellLines (fst run2)) = map Some cellRects /\
    snd run2 = snd run1.
Proof.
  intros run1 run2. subst run1 run2.
  destruct (drawSheetBorders_emitted s) as (Hs1 & Hc1 & Hr1 & Hid1 & Hb1 & _).
  destruct (drawSheetBorders_emitted (fst (drawSheetBorders U w s))) as (Hs2 & Hc2 & Hr2 & _).
  simpl in *. rewrite Hid1, Hb1 in Hs2, Hc2, Hr2.
  exists (map options
            (filter (onLayer SheetLayer) (fst (sheetBordersCalls U w (sheetId s) (borders s))))),
         (map options
            (filter (onLayer CellLayer) (fst (sheetBordersCalls U w (sheetId s) (borders s))))).
  rewrite Hs1, Hs2, Hc1, Hc2, Hr1, Hr2, !map_map. repeat split; reflexivity.
Qed.
End Idempotence.

(* ===================================================================== *)
(** ** The render loop                                                    *)
(* ===================================================================== *)

(* ===================================================================== *)
(** ** The fade in binary64                                               *)
(* ===================================================================== *)

Lemma scale_SF : Prim2SF SCALE_TO_SHOW_SHEET_BORDERS = S754_finite false scaleMantissa (-55).
Proof. vm_compute. reflexivity. Qed.

Lemma fade_SF : Prim2SF FADE_SCALE = S754_finite false fadeMantissa (-56).
Proof. vm_compute. reflexivity. Qed.

Lemma band_SF :
  Prim2SF (SCALE_TO_SHOW_SHEET_BORDERS + FADE_SCALE) = S754_finite false 4503599627370496 (-54).
Proof. vm_compute. reflexivity. Qed.

Lemma one_SF : Prim2SF 1 = S754_finite false 4503599627370496 (-52).
Proof. vm_compute. reflexivity. Qed.

Lemma zero_SF : Prim2SF 0 = S754_zero false.
Proof. vm_compute. reflexivity. Qed.

(** The number of binary digits of a positive number. *)
Lemma digits_bounds (p : positive) :
  2 ^ (Zpos (digits2_pos p) - 1) <= Zpos p < 2 ^ Zpos (digits2_pos p).
Proof.
  induction p as [p IH|p IH|]; cbn [digits2_pos].
  - rewrite Pos2Z.inj_succ.
    replace (Z.succ (Zpos (digits2_pos p)) - 1) with (Z.succ (Zpos (digits2_pos p) - 1)) by lia.
    rewrite !Z.pow_succ_r by lia. lia.
  - rewrite Pos2Z.inj_succ.
    replace (Z.succ (Zpos (digits2_pos p)) - 1) with (Z.succ (Zpos (digits2_pos p) - 1)) by lia.
    rewrite !Z.pow_succ_r by lia. lia.
  - simpl. lia.
Qed.

Lemma digits_unique (p : positive) (n : Z) :
  2 ^ (n - 1) <= Zpos p < 2 ^ n -> Zpos (digits2_pos p) = n.
Proof.
  intros [Hlo Hhi]. destruct (digits_bounds p) as [Dlo Dhi].
  assert (0 < n).
  { destruct (Z_lt_le_dec 0 n) as [|Hn]; [assumption|].
    exfalso. destruct n as [|n|n]; simpl in Hhi; try lia. }
  assert (n - 1 < Zpos (digits2_pos p))
    by (apply (Z.pow_lt_mono_r_iff 2); lia).
  assert (Zpos (digits2_pos p) - 1 < n)
    by (apply (Z.pow_lt_mono_r_iff 2); lia).
  lia.
Qed.

Lemma digits_iter (k d : positive) :
  digits2_pos (Pos.iter xO k d) = (digits2_pos k + d)%positive.
Proof.
  induction d as [|d IH] using Pos.peano_ind.
  - simpl. now rewrite Pos.add_1_r.
  - rewrite Pos.iter_succ. cbn [digits2_pos]. rewrite IH. lia.
Qed.

Lemma value_iter (k d : positive) : Zpos (Pos.iter xO k d) = Zpos k * 2 ^ Zpos d.
Proof.
  induction d as [|d IH] using Pos.peano_ind.
  - simpl. lia.
  - rewrite Pos.iter_succ, Pos2Z.inj_succ, Z.pow_succ_r by lia.
    rewrite Pos2Z.inj_xO, IH. lia.
Qed.

Lemma digits_53 (p : positive) :
  4503599627370496 <= Zpos p < 9007199254740992 -> Zpos (digits2_pos p) = 53.
Proof.
  intros H. apply digits_unique.
  change (2 ^ (53 - 1)) with 4503599627370496. change (2 ^ 53) with 9007199254740992.
  exact H.
Qed.

Lemma digits_54 (p : positive) :
  9007199254740992 <= Zpos p < 18014398509481984 -> Zpos (digits2_pos p) = 54.
Proof.
  intros H. apply digits_unique.
  change (2 ^ (54 - 1)) with 9007199254740992. change (2 ^ 54) with 18014398509481984.
  exact H.
Qed.

(** Rounding a mantissa of 53 or 54 digits. *)
Lemma shr_record_m (m : Z) (l : location) : shr_m (shr_record_of_loc m l) = m.
Proof. destruct l as [|[]]; reflexivity. Qed.

Lemma round_cases (m : Z) (l : location) :
  round_nearest_even m l = m \/ round_nearest_even m l = m + 1.
Proof. destruct l as [|[]]; simpl; auto. destruct (Z.even m); auto. Qed.

Lemma shr_fexp_keep (p : positive) (e : Z) (l : location) :
  Zpos (digits2_pos p) = 53 -> -1074 <= e ->
  shr_fexp prec emax (Zpos p) e l = (shr_record_of_loc (Zpos p) l, e).
Proof.
  intros Hd He. unfold shr_fexp, fexp. cbn [Zdigits2]. rewrite Hd.
  replace (Z.max (53 + e - prec) (SpecFloat.emin prec emax) - e) with 0
    by (unfold prec, emax, SpecFloat.emin; lia).
  reflexivity.
Qed.

Lemma shr_fexp_one (p : positive) (e : Z) (l : location) :
  Zpos (digits2_pos p) = 54 -> -1075 <= e ->
  shr_fexp prec emax (Zpos p) e l = (shr_1 (shr_record_of_loc (Zpos p) l), e + 1).
Proof.
  intros Hd He. unfold shr_fexp, fexp. cbn [Zdigits2]. rewrite Hd.
  replace (Z.max (54 + e - prec) (SpecFloat.emin prec emax) - e) with 1
    by (unfold prec, emax, SpecFloat.emin; lia).
  reflexivity.
Qed.

Lemma shr_1_m (p : positive) (l : location) :
  shr_m (shr_1 (shr_record_of_loc (Zpos p) l)) = Zpos p / 2.
Proof.
  rewrite <- Z.div2_div. destruct l as [|[]], p; reflexivity.
Qed.

Lemma finish_keep (p : positive) (e : Z) :
  4503599627370496 <= Zpos p < 9007199254740992 -> -1074 <= e <= 970 ->
  (let '(mrs, e') := shr_fexp prec emax (Zpos p) e loc_Exact in
   match shr_m mrs with
   | Z0 => S754_zero false
   | Zpos m => if e' <=? emax - prec then S754_finite false m e' else S754_infinity false
   | Zneg _ => S754_nan
   end) = S754_finite false p e.
Proof.
  intros Hp He.
  rewrite shr_fexp_keep by (try apply digits_53; lia).
  cbn [shr_m shr_record_of_loc].
  destruct (Z.leb_spec e (emax - prec)) as [_|H]; [reflexivity|].
  unfold emax, prec in H. lia.
Qed.

Lemma finish_carry (e : Z) :
  -1075 <= e <= 970 ->
  (let '(mrs, e') := shr_fexp prec emax 9007199254740992 e loc_Exact in
   match shr_m mrs with
   | Z0 => S754_zero false
   | Zpos m => if e' <=? emax - prec then S754_finite false m e' else S754_infinity false
   | Zneg _ => S754_nan
   end) = S754_finite false 4503599627370496 (e + 1).
Proof.
  intros He.
  rewrite shr_fexp_one by (try reflexivity; lia).
  cbn [shr_m shr_1 shr_record_of_loc orb].
  destruct (Z.leb_spec (e + 1) (emax - prec)) as [_|H]; [reflexivity|].
  unfold emax, prec in H. lia.
Qed.

Lemma binary_round_aux_finite (q e : Z) (l : location) :
  4503599627370496 <= q -> -1074 <= e <= 900 ->
  (q <= 9007199254740990 ->
     exists m, binary_round_aux prec emax false q e l = S754_finite false m e) /\
  (q <= 18014398509481980 ->
     exists m n, 0 <= n <= 1 /\
       binary_round_aux prec emax false q e l = S754_finite false m (e + n)).
Proof.
  intros Hq He. destruct q as [|p|p]; try lia.
  unfold binary_round_aux.
  destruct (Z_lt_le_dec (Zpos p) 9007199254740992) as [Hlt|Hge].
  - (* 53 digits *)
    rewrite shr_fexp_keep by (try apply digits_53; lia).
    rewrite shr_record_m.
    destruct (round_cases (Zpos p) (loc_of_shr_record (shr_record_of_loc (Zpos p) l)))
      as [-> | ->].
    + rewrite finish_keep by lia.
      split; intros _; [now exists p | exists p, 0; split; [lia | now rewrite Z.add_0_r]].
    + destruct (Z.eq_dec (Zpos p + 1) 9007199254740992) as [E|E].
      * rewrite E, finish_carry by lia.
        split; [lia|]. intros _. exists 4503599627370496%positive, 1. split; [lia | reflexivity].
      * replace (Zpos p + 1) with (Zpos (p + 1)) by lia.
        rewrite finish_keep by lia.
        split; intros _; [now exists (p + 1)%positive
                         | exists (p + 1)%positive, 0; split; [lia | now rewrite Z.add_0_r]].
  - (* 54 digits *)
    split; [lia|]. intros Hhi.
    rewrite shr_fexp_one by (try apply digits_54; lia).
    rewrite shr_1_m.
    assert (Hhalf : 4503599627370496 <= Zpos p / 2 <= 9007199254740990).
    { split; [apply Z.div_le_lower_bound; lia|].
      apply Z.lt_succ_r. apply Z.div_lt_upper_bound; lia. }
    destruct (round_cases (Zpos p / 2)
                (loc_of_shr_record (shr_1 (shr_record_of_loc (Zpos p) l)))) as [-> | ->].
    + destruct (Zpos p / 2) as [|h|h] eqn:Eh; try lia.
      exists h, 1. split; [lia | apply finish_keep; lia].
    + destruct (Zpos p / 2) as [|h|h] eqn:Eh; try lia.
      replace (Zpos h + 1) with (Zpos (h + 1)) by lia.
      exists (h + 1)%positive, 1. split; [lia | apply finish_keep; lia].
Qed.

Lemma binary_round_aux_exact (p : positive) (e : Z) :
  4503599627370496 <= Zpos p < 9007199254740992 -> -1074 <= e <= 900 ->
  binary_round_aux prec emax false (Zpos p) e loc_Exact = S754_finite false p e.
Proof.
  intros Hp He. unfold binary_round_aux.
  rewrite shr_fexp_keep by (try apply digits_53; lia).
  cbv beta iota.
  change (shr_m (shr_record_of_loc (Z.pos p) loc_Exact)) with (Zpos p).
  change (loc_of_shr_record (shr_record_of_loc (Z.pos p) loc_Exact)) with loc_Exact.
  change (round_nearest_even (Zpos p) loc_Exact) with (Zpos p).
  apply finish_keep; lia.
Qed.

(** The doubles of the fade band. *)
Lemma band_shape (x : spec_float) :
  valid_binary x = true ->
  SFltb x (S754_finite false scaleMantissa (-55)) = false ->
  SFltb x (S754_finite false 4503599627370496 (-54)) = true ->
  exists m, x = S754_finite false m (-55) /\
            Zpos scaleMantissa <= Zpos m < 9007199254740992.
Proof.
  intros Hvalid Hlow Hhigh.
  destruct x as [s|s| |s m e].
  1-3: try (destruct s; discriminate); try discriminate.
  destruct s; [discriminate|].
  unfold SFltb, SFcompare in Hlow, Hhigh.
  unfold valid_binary, bounded, canonical_mantissa, fexp in Hvalid.
  apply andb_true_iff in Hvalid. destruct Hvalid as [Hc _].
  apply Z.eqb_eq in Hc. unfold prec, emax, SpecFloat.emin in Hc.
  destruct (Z.compare_spec e (-55)) as [E1|E1|E1]; [|discriminate|];
    destruct (Z.compare_spec e (-54)) as [E2|E2|E2]; try discriminate.
  - exfalso. lia.
  - subst e. exists m. split; [reflexivity|].
    assert (Hd : Zpos (digits2_pos m) = 53) by lia.
    destruct (digits_bounds m) as [_ Dhi].
    rewrite Hd in Dhi. change (2 ^ 53) with 9007199254740992 in Dhi.
    split; [|exact Dhi].
    pose proof (Pos.compare_spec m scaleMantissa) as Hs. unfold Pos.compare in Hs.
    destruct Hs as [->|Hlt|Hgt];
      [apply Z.le_refl | discriminate | lia].
  - exfalso. subst e.
    assert (Hd : Zpos (digits2_pos m) = 53) by lia.
    destruct (digits_bounds m) as [Dlo _].
    rewrite Hd in Dlo. change (2 ^ (53 - 1)) with 4503599627370496 in Dlo.
    pose proof (Pos.compare_spec m 4503599627370496) as Hs. unfold Pos.compare in Hs.
    destruct Hs as [->|Hlt|Hgt]; try discriminate.
    apply Pos2Z.pos_lt_pos in Hlt. clear - Hlt Dlo. lia.
  - exfalso. lia.
Qed.

(** [scale - 0.15] in the fade band: zero, or a normal number below
    [2^-4] whose mantissa stays two units under the one of 0.1 in the
    last binade. *)
Lemma sub_band (m : positive) :
  Zpos scaleMantissa <= Zpos m < 9007199254740992 ->
  SF64sub (S754_finite false m (-55)) (S754_finite false scaleMantissa (-55)) = S754_zero false \/
  exists M E,
    4503599627370496 <= Zpos M < 9007199254740992 /\ -107 <= E <= -56 /\
    (E = -56 -> Zpos M <= 7205759403792792) /\
    SF64sub (S754_finite false m (-55)) (S754_finite false scaleMantissa (-55))
    = S754_finite false M E.
Proof.
  intros Hm. unfold SF64sub, SFsub.
  change (Z.min (-55) (-55)) with (-55).
  unfold shl_align. change (-55 - -55) with 0. cbv beta iota zeta.
  unfold fst, cond_Zopp, binary_normalize.
  destruct (Zpos m - Zpos scaleMantissa) as [|k|k] eqn:Ek.
  - now left.
  - right. unfold binary_round.
    assert (Hk : 1 <= Zpos k <= 3602879701896396) by (unfold scaleMantissa in *; lia).
    destruct (digits_bounds k) as [Dlo Dhi].
    assert (Hdk : 1 <= Zpos (digits2_pos k) <= 52).
    { split; [lia|].
      assert (Zpos (digits2_pos k) - 1 < 52); [|lia].
      apply (Z.pow_lt_mono_r_iff 2); [lia | lia |].
      change (2 ^ 52) with 4503599627370496.
      eapply Z.le_lt_trans; [exact Dlo | lia]. }
    remember (Zpos (digits2_pos k)) as dk eqn:Edk.
    unfold fexp, prec, emax, SpecFloat.emin.
    replace (Z.max (dk + -55 - 53) (3 - 1024 - 53)) with (dk - 108) by lia.
    unfold shl_align.
    assert (Hd : Zpos (Z.to_pos (53 - dk)) = 53 - dk) by (apply Z2Pos.id; lia).
    replace (dk - 108 - -55) with (Zneg (Z.to_pos (53 - dk)))
      by (rewrite <- Pos2Z.opp_pos, Hd; lia).
    cbv beta iota zeta.
    set (M := Pos.iter xO k (Z.to_pos (53 - dk))).
    assert (HdM : Zpos (digits2_pos M) = 53).
    { unfold M. rewrite digits_iter, Pos2Z.inj_add, <- Edk, Hd. lia. }
    assert (HM : 4503599627370496 <= Zpos M < 9007199254740992).
    { destruct (digits_bounds M) as [Mlo Mhi]. rewrite HdM in Mlo, Mhi.
      change (2 ^ (53 - 1)) with 4503599627370496 in Mlo.
      change (2 ^ 53) with 9007199254740992 in Mhi. split; assumption. }
    exists M, (dk - 108). split; [exact HM|]. split; [lia|]. split.
    + intros HE. assert (Hdk52 : dk = 52) by lia.
      unfold M. rewrite value_iter, Hd, Hdk52. change (2 ^ (53 - 52)) with 2. lia.
    + apply binary_round_aux_exact; [exact HM | lia].
  - exfalso. unfold scaleMantissa in *. lia.
Qed.

(** Dividing such a difference by 0.1 gives a double below 1. *)
Lemma div_band (M : positive) (E : Z) :
  4503599627370496 <= Zpos M < 9007199254740992 -> -107 <= E <= -56 ->
  (E = -56 -> Zpos M <= 7205759403792792) ->
  exists m e, e <= -53 /\
    SF64div (S754_finite false M E) (S754_finite false fadeMantissa (-56))
    = S754_finite false m e.
Proof.
  intros HM HE Hlast.
  unfold SF64div, SFdiv, SFdiv_core_binary. cbn [Zdigits2 xorb].
  rewrite (@digits_53 M HM).
  change (Zpos (digits2_pos fadeMantissa)) with 53.
  unfold fexp, prec, emax, SpecFloat.emin.
  replace (Z.max (53 + E - (53 + -56) - 53) (3 - 1024 - 53)) with (E + 3) by lia.
  replace (Z.min (E + 3) (E - -56)) with (E + 3) by lia.
  replace (E - -56 - (E + 3)) with 53 by lia.
  cbv beta iota zeta.
  rewrite Z.shiftl_mul_pow2 by lia. change (2 ^ 53) with 9007199254740992.
  pose proof (eq_refl : Zpos M * 9007199254740992 / Zpos fadeMantissa
                        = Zpos M * 9007199254740992 / Zpos fadeMantissa) as Hq.
  unfold Z.div at 1 in Hq.
  destruct (Z.div_eucl (Zpos M * 9007199254740992) (Zpos fadeMantissa)) as [q r].
  cbv beta iota zeta.
  assert (Hlo : 4503599627370496 <= q).
  { rewrite Hq. apply Z.div_le_lower_bound; unfold fadeMantissa; lia. }
  assert (Hhi : q <= 18014398509481980).
  { apply Z.lt_succ_r. rewrite Hq.
    apply Z.div_lt_upper_bound; unfold fadeMantissa; lia. }
  destruct (@binary_round_aux_finite q (E + 3)
              (new_location (Zpos fadeMantissa) r) Hlo ltac:(lia)) as [Hkeep Hone].
  destruct (Z.eq_dec E (-56)) as [HE56|HE56].
  - assert (Hq53 : q <= 9007199254740990).
    { apply Z.lt_succ_r. rewrite Hq.
      apply Z.div_lt_upper_bound; unfold fadeMantissa; [lia|]. specialize (Hlast HE56). lia. }
    destruct (Hkeep Hq53) as [m Hm]. exists m, (E + 3). split; [lia | exact Hm].
  - destruct (Hone Hhi) as (m & n & Hn & Hm). exists m, (E + 3 + n). split; [lia | exact Hm].
Qed.

(** In the fade band alpha is a double of [0, 1). *)
Lemma fade_alpha_range (x : float) :
  (x <? SCALE_TO_SHOW_SHEET_BORDERS)%float = false ->
  (x <? SCALE_TO_SHOW_SHEET_BORDERS + FADE_SCALE)%float = true ->
  (0 <=? (x - SCALE_TO_SHOW_SHEET_BORDERS) / FADE_SCALE)%float = true /\
  ((x - SCALE_TO_SHOW_SHEET_BORDERS) / FADE_SCALE <? 1)%float = true.
Proof.
  intros Hlow Hhigh.
  rewrite ltb_spec in Hlow, Hhigh. rewrite scale_SF in Hlow. rewrite band_SF in Hhigh.
  destruct (@band_shape (Prim2SF x) (Prim2SF_valid x) Hlow Hhigh) as (m & Hx & Hm).
  rewrite leb_spec, ltb_spec, div_spec, sub_spec, Hx, scale_SF, fade_SF, zero_SF, one_SF.
  destruct (@sub_band m Hm) as [-> | (M & E & HM & HE & Hlast & ->)].
  - split; reflexivity.
  - destruct (@div_band M E HM HE Hlast) as (a & e & He & ->). split; [reflexivity|].
    unfold SFltb, SFcompare.
    destruct (Z.compare_spec e (-52)) as [H|H|H]; [lia | reflexivity | lia].
Qed.

(* ===================================================================== *)
(** ** The update                                                         *)
(* ===================================================================== *)

(** Case analysis on the second comparison of [update], the one against
    threshold plus fade width. *)
Ltac case_fade :=
  match goal with
  | |- context [PrimFloat.ltb (scale_x ?w) ?t] => destruct (PrimFloat.ltb (scale_x w) t)
  end.

Lemma setVisible_options ref v l :
  map sprite_options (setVisible ref v l) = map sprite_options l.
Proof.
  revert ref; induction l as [|sp l IH]; intros [|ref]; simpl; try reflexivity.
  now rewrite IH.
Qed.

Section Update.
Context (U : BordersUtil) (w : World).

Lemma cull_frame s :
  sheetId (cull w s) = sheetId s /\ borders (cull w s) = borders s /\
  map sprite_options (sprites (cull w s)) = map sprite_options (sprites s) /\
  cellLines (cull w s) = cellLines s /\ sheetLines (cull w s) = sheetLines s /\
  sheetLines_visible (cull w s) = sheetLines_visible s /\
  sheetLines_alpha (cull w s) = sheetLines_alpha s /\
  spriteLines (cull w s) = spriteLines s /\
  dirty (cull w s) = dirty s /\ viewport_dirty (cull w s) = viewport_dirty s.
Proof.
  unfold cull; simpl. repeat split.
  generalize (sprites s). induction (spriteLines s) as [|c l IH]; intros sps; simpl.
  - reflexivity.
  - rewrite IH. apply setVisible_options.
Qed.

(** C6.  On a redraw ([update] on a dirty renderer or viewport), in the
    binary64 arithmetic of the code: when the scale is below the
    visibility threshold the sheet container is hidden and nothing is
    recomputed (its children and the sprite objects are the ones from
    before); otherwise, when the redraw completes, the container is
    visible, and its alpha is [(scale - threshold) / fade width], a double
    of [0, 1), while the scale is below threshold plus fade width, and 1
    otherwise.  Threshold plus fade width is 0.25, and alpha is 0 at the
    threshold. *)
Theorem update_hides_or_fades (s : State) :
  dirty s = true \/ viewport_dirty s = true ->
  ((scale_x w <? SCALE_TO_SHOW_SHEET_BORDERS)%float = true ->
     update U w s = (cull w (set_dirty false (set_sheetLines_visible false s)), Ok tt) /\
     sheetLines_visible (fst (update U w s)) = false /\
     sheetLines (fst (update U w s)) = sheetLines s /\
     map sprite_options (sprites (fst (update U w s))) = map sprite_options (sprites s)) /\
  ((scale_x w <? SCALE_TO_SHOW_SHEET_BORDERS)%float = false ->
   snd (update U w s) = Ok tt ->
     sheetLines_visible (fst (update U w s)) = true /\
     ((scale_x w <? SCALE_TO_SHOW_SHEET_BORDERS + FADE_SCALE)%float = true ->
        sheetLines_alpha (fst (update U w s))
        = ((scale_x w - SCALE_TO_SHOW_SHEET_BORDERS) / FADE_SCALE)%float /\
        (0 <=? sheetLines_alpha (fst (update U w s)))%float = true /\
        (sheetLines_alpha (fst (update U w s)) <? 1)%float = true) /\
     ((scale_x w <? SCALE_TO_SHOW_SHEET_BORDERS + FADE_SCALE)%float = false ->
        sheetLines_alpha (fst (update U w s)) = 1%float)) /\
  (SCALE_TO_SHOW_SHEET_BORDERS + FADE_SCALE = 0.25)%float /\
  ((SCALE_TO_SHOW_SHEET_BORDERS - SCALE_TO_SHOW_SHEET_BORDERS) / FADE_SCALE = 0)%float.
Proof.
  intros Hdirty.
  assert (Hgo : negb (dirty s) && negb (viewport_dirty s) = false).
  { destruct Hdirty as [-> | ->]; simpl; [reflexivity | apply andb_false_r]. }
  unfold update. rewrite Hgo. unfold showSheetLines.
  split; [|split; [|split; reflexivity]].
  - intros Hlt. rewrite Hlt. simpl.
    split; [reflexivity|]. split; [reflexivity|]. split; [reflexivity|].
    destruct (cull_frame (set_dirty false (set_sheetLines_visible false s)))
      as (_ & _ & H & _). exact H.
  - intros Hge. rewrite Hge.
    destruct (drawSheetBorders_emitted U w (set_sheetLines_visible true s))
      as (_ & _ & _ & _ & _ & _ & _ & Hvis & _).
    destruct (drawSheetBorders U w (set_sheetLines_visible true s)) as [s1 [[]|m]];
      [|discriminate].
    simpl in Hvis. intros _.
    destruct (scale_x w <? SCALE_TO_SHOW_SHEET_BORDERS + FADE_SCALE)%float eqn:Efade; simpl.
    + split; [exact Hvis|]. split; [|discriminate].
      intros _. split; [reflexivity|]. now apply fade_alpha_range.
    + split; [exact Hvis|]. split; [discriminate | reflexivity].
Qed.

(** C9.  [update] on a renderer that is not dirty, with a viewport that
    is not dirty, returns at once: the state, with every sprite's
    visibility, the container's visibility and alpha, is unchanged. *)
Theorem update_is_noop_when_clean (s : State) :
  dirty s = false -> viewport_dirty s = false -> update U w s = (s, Ok tt).
Proof. intros Hd Hv. unfold update. now rewrite Hd, Hv. Qed.
End Update.

(* ===================================================================== *)
(** ** Events and the sheet accessor                                      *)
(* ===================================================================== *)

Section Events.
Context (U : BordersUtil) (w : World).

(** C7.  The handler of the borders event leaves the renderer as it is
    (dataset, primitives, dirty flag) for every sheet id other than its
    own.  For its own id and no dataset, it stores the absence, empties
    the cell container and marks the renderer dirty; from then on, as
    long as no dataset is stored, [drawSheetBorders] empties both
    containers and draws nothing, and [update] creates no sprite. *)
Theorem drawSheetCells_only_for_own_sheet (s : State) :
  (forall id bs, id <> sheetId s -> drawSheetCells w id bs s = (s, Ok tt)) /\
  drawSheetCells w (sheetId s) None s
  = (mkState (sheetId s) None (sprites s) [] (sheetLines s)
             (sheetLines_visible s) (sheetLines_alpha s) (spriteLines s)
             true (viewport_dirty s), Ok tt) /\
  (forall s', borders s' = None ->
     drawSheetBorders U w s'
     = (mkState (sheetId s') None (sprites s') [] []
                (sheetLines_visible s') (sheetLines_alpha s') (spriteLines s')
                (dirty s') true, Ok tt) /\
     snd (update U w s') = Ok tt /\
     borders (fst (update U w s')) = None /\
     map sprite_options (sprites (fst (update U w s'))) = map sprite_options (sprites s')).
Proof.
  split; [|split].
  - intros id bs Hid. unfold drawSheetCells.
    apply String.eqb_neq in Hid. now rewrite Hid.
  - unfold drawSheetCells. rewrite String.eqb_refl. reflexivity.
  - intros s' Hb.
    assert (Hdraw : forall s0, borders s0 = None ->
              drawSheetBorders U w s0
              = (mkState (sheetId s0) None (sprites s0) [] []
                   (sheetLines_visible s0) (sheetLines_alpha s0) (spriteLines s0)
                   (dirty s0) true, Ok tt)).
    { intros s0 H0. unfold drawSheetBorders. simpl. now rewrite H0. }
    split; [now apply Hdraw|].
    unfold update.
    destruct (negb (dirty s') && negb (viewport_dirty s')); [auto|].
    unfold showSheetLines.
    destruct (scale_x w <? SCALE_TO_SHOW_SHEET_BORDERS)%float.
    + destruct (cull_frame w (set_dirty false (set_sheetLines_visible false s')))
        as (_ & Hbs & Hsp & _).
      simpl in *. repeat split; assumption || reflexivity.
    + rewrite (Hdraw (set_sheetLines_visible true s') Hb).
      case_fade;
        match goal with |- context [cull w ?x] =>
          destruct (cull_frame w x) as (_ & Hbs & Hsp & _) end;
        simpl in *; repeat split; assumption || reflexivity.
Qed.
End Events.

Section SheetAccessor.
Context (U : BordersUtil) (w : World).

Lemma forEach_throws {A} (l : list A) (f : A -> Draw unit) m :
  (exists a, In a l /\ f a = ([], Throw m)) ->
  (forall a, In a l -> f a = ([], Ok tt) \/ f a = ([], Throw m)) ->
  forEach l f = ([], Throw m).
Proof.
  induction l as [|a l IH]; intros (a0 & Hin & Ha0) Hall; [destruct Hin|].
  simpl. unfold bind.
  destruct (Hall a (or_introl eq_refl)) as [Hok|Hthrow].
  - rewrite Hok. simpl. destruct Hin as [->|Hin]; [congruence|].
    rewrite IH; [reflexivity | now exists a0 | intros; apply Hall; now right].
  - rewrite Hthrow. reflexivity.
Qed.

(** C8.  The sheet accessor returns the sheet when there is one and
    throws when there is none; then every operation that reads the
    offsets of the owning sheet throws the same error before it draws
    anything: both line drawers on every call, and the drawers of the
    explicit segments as soon as one segment is not "clear". *)
Theorem missing_sheet_throws (id : string) :
  (forall sh, getById w id = Some sh -> sheet w id = Ok sh) /\
  (getById w id = None ->
     sheet w id = Throw sheetError /\
     (forall bs rowStart rowEnd column border rows,
        drawScreenVerticalLine U w id bs rowStart rowEnd column border rows
        = ([], Throw sheetError)) /\
     (forall bs columnStart columnEnd row border columns,
        drawScreenHorizontalLine U w id bs columnStart columnEnd row border columns
        = ([], Throw sheetError)) /\
     (forall bs hs border,
        borders_horizontal bs = Some hs -> In border hs -> is_clear (h_line border) = false ->
        drawHorizontal w id bs = ([], Throw sheetError)) /\
     (forall bs vs border,
        borders_vertical bs = Some vs -> In border vs -> is_clear (v_line border) = false ->
        drawVertical w id bs = ([], Throw sheetError))).
Proof.
  split.
  - intros sh H. unfold sheet. now rewrite H.
  - intros Hnone.
    assert (Hs : sheet w id = Throw sheetError) by (unfold sheet; now rewrite Hnone).
    split; [exact Hs|]. split; [|split; [|split]].
    + intros. unfold drawScreenVerticalLine. now rewrite Hs.
    + intros. unfold drawScreenHorizontalLine. now rewrite Hs.
    + intros bs hs border Hhs Hin Hclear. unfold drawHorizontal. rewrite Hhs.
      apply forEach_throws.
      * exists border. split; [exact Hin|]. now rewrite Hclear, Hs.
      * intros a _. destruct (is_clear (h_line a)); [now left | right; now rewrite Hs].
    + intros bs vs border Hvs Hin Hclear. unfold drawVertical. rewrite Hvs.
      apply forEach_throws.
      * exists border. split; [exact Hin|]. now rewrite Hclear, Hs.
      * intros a _. destruct (is_clear (v_line a)); [now left | right; now rewrite Hs].
Qed.
End SheetAccessor.

(* ===================================================================== *)
(** ** The theorems at sample inputs                                      *)
(* ===================================================================== *)

#[warnings="-inexact-float"]
Lemma update_hides_or_fades_witness :
  sheetLines_visible
    (fst (update specUtil (sampleWorld 0.125)
            (setDirty (initial (Some crossing))))) = false /\
  sheetLines_visible
    (fst (update specUtil (sampleWorld SCALE_TO_SHOW_SHEET_BORDERS)
            (setDirty (initial (Some crossing))))) = true /\
  sheetLines_alpha
    (fst (update specUtil (sampleWorld SCALE_TO_SHOW_SHEET_BORDERS)
            (setDirty (initial (Some crossing))))) = 0%float /\
  sheetLines_alpha
    (fst (update specUtil (sampleWorld fadingZoom)
            (setDirty (initial (Some crossing)))))
  = 0.5000000000000001%float /\
  sheetLines_alpha
    (fst (update specUtil (sampleWorld 1)
            (setDirty (initial (Some crossing))))) = 1%float /\
  sheetLines_alpha
    (fst (update specUtil (sampleWorld nan)
            (setDirty (initial (Some crossing))))) = 1%float.
Proof.
  split; [|split; [|split; [|split; [|split]]]].
  - apply (proj1 (update_hides_or_fades specUtil (sampleWorld 0.125)
                    (setDirty (initial (Some crossing)))
                    (or_introl eq_refl))).
    reflexivity.
  - exact (proj1 (proj1 (proj2 (update_hides_or_fades specUtil
                    (sampleWorld SCALE_TO_SHOW_SHEET_BORDERS)
                    (setDirty (initial (Some crossing)))
                    (or_introl eq_refl))) eq_refl eq_refl)).
  - exact (proj1 (proj1 (proj2 (proj1 (proj2 (update_hides_or_fades specUtil
                    (sampleWorld SCALE_TO_SHOW_SHEET_BORDERS)
                    (setDirty (initial (Some crossing)))
                    (or_introl eq_refl))) eq_refl eq_refl)) eq_refl)).
  - exact (proj1 (proj1 (proj2 (proj1 (proj2 (update_hides_or_fades specUtil
                    (sampleWorld fadingZoom) (setDirty (initial (Some crossing)))
                    (or_introl eq_refl))) eq_refl eq_refl)) eq_refl)).
  - exact (proj2 (proj2 (proj1 (proj2 (update_hides_or_fades specUtil (sampleWorld 1)
                    (setDirty (initial (Some crossing)))
                    (or_introl eq_refl))) eq_refl eq_refl)) eq_refl).
  - exact (proj2 (proj2 (proj1 (proj2 (update_hides_or_fades specUtil (sampleWorld nan)
                    (setDirty (initial (Some crossing)))
                    (or_introl eq_refl))) eq_refl eq_refl)) eq_refl).
Defined.

Lemma update_is_noop_when_clean_witness :
  update specUtil (sampleWorld 1) (initial (Some crossing))
  = (initial (Some crossing), Ok tt).
Proof.
  apply update_is_noop_when_clean; reflexivity.
Defined.

Lemma drawSheetCells_only_for_own_sheet_witness :
  drawSheetCells (sampleWorld 1) "sheet2" None (initial (Some crossing))
  = (initial (Some crossing), Ok tt) /\
  snd (update specUtil (sampleWorld 1) (setDirty (initial None))) = Ok tt.
Proof.
  split.
  - apply (proj1 (drawSheetCells_only_for_own_sheet specUtil (sampleWorld 1)
                    (initial (Some crossing)))).
    discriminate.
  - apply (proj2 (proj2 (drawSheetCells_only_for_own_sheet specUtil (sampleWorld 1)
                           (initial None)))).
    reflexivity.
Defined.

Lemma missing_sheet_throws_witness :
  sheet (sampleWorld 1) "sheet1" = Ok sampleSheet /\
  sheet (sampleWorld 1) "sheet2" = Throw sheetError /\
  drawHorizontal (sampleWorld 1) "sheet2" (Some crossing) = ([], Throw sheetError).
Proof.
  split; [|split].
  - apply (proj1 (missing_sheet_throws specUtil (sampleWorld 1) "sheet1")). reflexivity.
  - apply (proj2 (missing_sheet_throws specUtil (sampleWorld 1) "sheet2")). reflexivity.
  - refine (proj1 (proj2 (proj2 (proj2
      (proj2 (missing_sheet_throws specUtil (sampleWorld 1) "sheet2") eq_refl))))
      (Some crossing) _ (mkH black "line1"%string 4 3 1) eq_refl _ eq_refl).
    now left.
Defined.

Example missing_sheet_stops_the_redraw :
  snd (update specUtil (sampleWorld 1)
         (mkState "sheet2" (Some (adjacentColumns (solid 2) (solid 1)))
                  [] [] [] true 1 [] true false))
  = Throw sheetError.
Proof. reflexivity. Qed.

(* ===================================================================== *)
(** ** Drawing with the sheet in place                                    *)
(* ===================================================================== *)

Lemma forEach_ok {A} (l : list A) (f : A -> Draw unit) (g : A -> list DrawCall) :
  (forall a, In a l -> f a = (g a, Ok tt)) ->
  forEach l f = (flat_map g l, Ok tt).
Proof.
  induction l as [|a l IH]; intros H; [reflexivity|].
  simpl. unfold bind. rewrite (H a (or_introl eq_refl)). simpl.
  rewrite IH by (intros; apply H; now right). reflexivity.
Qed.

Lemma flat_map_single {A B} (f : A -> B) (l : list A) :
  flat_map (fun a => [f a]) l = map f l.
Proof. induction l; simpl; congruence. Qed.

Lemma flat_map_filter {A B} (p : A -> bool) (f : A -> B) (l : list A) :
  flat_map (fun a => if p a then [] else [f a]) l = map f (filter (fun a => negb (p a)) l).
Proof.
  induction l as [|a l IH]; simpl; [reflexivity|].
  destruct (p a); simpl; now rewrite IH.
Qed.

Section WithSheet.
Context (U : BordersUtil) (w : World) (id : string) (sh : Sheet).
Hypothesis Hsheet : getById w id = Some sh.

Lemma sheet_found : sheet w id = Ok sh.
Proof. unfold sheet. now rewrite Hsheet. Qed.

Lemma runCall_rects bs c : runCall U w id bs c = (callRects U sh bs c, Ok tt).
Proof.
  destruct c as [a b x e r|a b y e cs]; simpl.
  - unfold drawScreenVerticalLine. rewrite sheet_found. unfold bind, lift; simpl.
    rewrite (@forEach_ok _ _ _ (fun seg => [verticalRect sh x e seg])).
    + now rewrite flat_map_single.
    + intros [s e'] _. reflexivity.
  - unfold drawScreenHorizontalLine. rewrite sheet_found. unfold bind, lift; simpl.
    rewrite (@forEach_ok _ _ _ (fun seg => [horizontalRect sh y e seg])).
    + now rewrite flat_map_single.
    + intros [s e'] _. reflexivity.
Qed.

Lemma drawHorizontal_rects bs :
  drawHorizontal w id bs = (map (horizontalSegmentRect sh) (drawnHorizontal bs), Ok tt).
Proof.
  unfold drawHorizontal, drawnHorizontal.
  destruct (borders_horizontal bs) as [hs|]; [|reflexivity].
  rewrite (@forEach_ok _ _ _ (fun border => if is_clear (h_line border) then []
                                       else [horizontalSegmentRect sh border])).
  - now rewrite flat_map_filter.
  - intros border _. destruct (is_clear (h_line border)); [reflexivity|].
    rewrite sheet_found. reflexivity.
Qed.

Lemma drawVertical_rects bs :
  drawVertical w id bs = (map (verticalSegmentRect sh) (drawnVertical bs), Ok tt).
Proof.
  unfold drawVertical, drawnVertical.
  destruct (borders_vertical bs) as [vs|]; [|reflexivity].
  rewrite (@forEach_ok _ _ _ (fun border => if is_clear (v_line border) then []
                                       else [verticalSegmentRect sh border])).
  - now rewrite flat_map_filter.
  - intros border _. destruct (is_clear (v_line border)); [reflexivity|].
    rewrite sheet_found. reflexivity.
Qed.

Lemma forEach_runCall bs calls :
  forEach calls (runCall U w id bs) = (flat_map (callRects U sh bs) calls, Ok tt).
Proof. apply forEach_ok. intros c _. apply runCall_rects. Qed.

Lemma drawSheet_rects d :
  drawSheet U w id d
  = (flat_map (callRects U sh (Some d))
       (allTier d (columnStartOf w) (columnEndOf w) (rowStartOf w) (rowEndOf w))
     ++ map (horizontalSegmentRect sh) (drawnHorizontal (Some d))
     ++ map (verticalSegmentRect sh) (drawnVertical (Some d))
     ++ flat_map (callRects U sh (Some d))
          (columnTier d (columnStartOf w) (columnEndOf w) (rowStartOf w) (rowEndOf w))
     ++ flat_map (callRects U sh (Some d))
          (rowTier d (columnStartOf w) (columnEndOf w) (rowStartOf w) (rowEndOf w)),
     Ok tt).
Proof.
  unfold drawSheet, columnStartOf, columnEndOf, rowStartOf, rowEndOf.
  rewrite !forEach_runCall, drawHorizontal_rects, drawVertical_rects.
  reflexivity.
Qed.
End WithSheet.

Lemma newCulls_rectangles n calls :
  map cull_rectangle (newCulls n calls)
  = map (fun c => position (options c)) (filter (onLayer CellLayer) calls).
Proof.
  revert n; induction calls as [|c calls IH]; intros n; simpl; [reflexivity|].
  unfold onLayer. destruct (target c); simpl; now rewrite IH.
Qed.

Lemma newCulls_refs n calls :
  Forall (fun c => (n <= cull_sprite c < n + length calls)%nat) (newCulls n calls).
Proof.
  revert n; induction calls as [|c calls IH]; intros n; simpl; [constructor|].
  assert (H : Forall (fun c0 => (n <= cull_sprite c0 < n + S (length calls))%nat)
                     (newCulls (S n) calls)).
  { eapply Forall_impl; [|apply IH]. simpl. intros; lia. }
  destruct (target c); [constructor; [simpl; lia | exact H] | exact H].
Qed.

Lemma perform_store (calls : list DrawCall) : forall s,
  sprites (fold_left addSprite calls s)
  = sprites s ++ map (fun c => mkSprite (options c) true) calls /\
  spriteLines (fold_left addSprite calls s)
  = spriteLines s ++ newCulls (length (sprites s)) calls.
Proof.
  induction calls as [|c calls IH]; intros s; simpl.
  - now rewrite !app_nil_r.
  - destruct (IH (addSprite s c)) as [Hs Hc]. rewrite Hs, Hc.
    unfold addSprite. destruct (target c); simpl;
      rewrite ?length_app, <- ?app_assoc; simpl; rewrite ?Nat.add_1_r; split; reflexivity.
Qed.

Lemma filter_all {A} (p : A -> bool) l : (forall a, In a l -> p a = true) -> filter p l = l.
Proof.
  induction l as [|a l IH]; intros H; simpl; [reflexivity|].
  rewrite (H a (or_introl eq_refl)), IH by (intros; apply H; now right). reflexivity.
Qed.

Lemma filter_none {A} (p : A -> bool) l : (forall a, In a l -> p a = false) -> filter p l = [].
Proof.
  induction l as [|a l IH]; intros H; simpl; [reflexivity|].
  rewrite (H a (or_introl eq_refl)), IH by (intros; apply H; now right). reflexivity.
Qed.

Lemma callRects_layer U sh bs calls c :
  In c (flat_map (callRects U sh bs) calls) -> target c = SheetLayer.
Proof.
  intros H. apply in_flat_map in H. destruct H as (call & _ & H).
  destruct call; simpl in H; apply in_map_iff in H; destruct H as (seg & <- & _); reflexivity.
Qed.

Lemma segmentRects_layer sh bs c :
  In c (map (horizontalSegmentRect sh) (drawnHorizontal bs)
        ++ map (verticalSegmentRect sh) (drawnVertical bs)) ->
  target c = CellLayer.
Proof.
  intros H. apply in_app_or in H.
  destruct H as [H|H]; apply in_map_iff in H; destruct H as (b & <- & _); reflexivity.
Qed.

Lemma split_layers U sh bs tiersA tiersB :
  let calls := flat_map (callRects U sh bs) tiersA
               ++ map (horizontalSegmentRect sh) (drawnHorizontal bs)
               ++ map (verticalSegmentRect sh) (drawnVertical bs)
               ++ flat_map (callRects U sh bs) tiersB in
  filter (onLayer SheetLayer) calls = flat_map (callRects U sh bs) (tiersA ++ tiersB) /\
  filter (onLayer CellLayer) calls
  = map (horizontalSegmentRect sh) (drawnHorizontal bs)
    ++ map (verticalSegmentRect sh) (drawnVertical bs).
Proof.
  intros calls. subst calls.
  assert (Hs : forall l, filter (onLayer SheetLayer) (flat_map (callRects U sh bs) l)
                         = flat_map (callRects U sh bs) l).
  { intros l. apply filter_all. intros c Hc. unfold onLayer.
    now rewrite (callRects_layer _ _ _ _ _ Hc). }
  assert (Hc : forall l, filter (onLayer CellLayer) (flat_map (callRects U sh bs) l) = []).
  { intros l. apply filter_none. intros c Hc. unfold onLayer.
    now rewrite (callRects_layer _ _ _ _ _ Hc). }
  assert (Hh : forall l, filter (onLayer SheetLayer) (map (horizontalSegmentRect sh) l) = [])
    by (intros l; apply filter_none; intros c Hc'; apply in_map_iff in Hc';
        destruct Hc' as (b & <- & _); reflexivity).
  assert (Hv : forall l, filter (onLayer SheetLayer) (map (verticalSegmentRect sh) l) = [])
    by (intros l; apply filter_none; intros c Hc'; apply in_map_iff in Hc';
        destruct Hc' as (b & <- & _); reflexivity).
  assert (Hh' : forall l, filter (onLayer CellLayer) (map (horizontalSegmentRect sh) l)
                          = map (horizontalSegmentRect sh) l)
    by (intros l; apply filter_all; intros c Hc'; apply in_map_iff in Hc';
        destruct Hc' as (b & <- & _); reflexivity).
  assert (Hv' : forall l, filter (onLayer CellLayer) (map (verticalSegmentRect sh) l)
                          = map (verticalSegmentRect sh) l)
    by (intros l; apply filter_all; intros c Hc'; apply in_map_iff in Hc';
        destruct Hc' as (b & <- & _); reflexivity).
  rewrite !filter_app, !Hs, !Hc, !Hh, !Hv, !Hh', !Hv', flat_map_app, !app_nil_r.
  split; reflexivity.
Qed.

Section Redraw.
Context (U : BordersUtil) (w : World).

Lemma drawSheetBorders_calls (s : State) (d : JsBordersSheet) (sh : Sheet) :
  borders s = Some d -> getById w (sheetId s) = Some sh ->
  sheetBordersCalls U w (sheetId s) (borders s)
  = (flat_map (callRects U sh (Some d))
       (allTier d (columnStartOf w) (columnEndOf w) (rowStartOf w) (rowEndOf w))
     ++ map (horizontalSegmentRect sh) (drawnHorizontal (Some d))
     ++ map (verticalSegmentRect sh) (drawnVertical (Some d))
     ++ flat_map (callRects U sh (Some d))
          (columnTier d (columnStartOf w) (columnEndOf w) (rowStartOf w) (rowEndOf w))
     ++ flat_map (callRects U sh (Some d))
          (rowTier d (columnStartOf w) (columnEndOf w) (rowStartOf w) (rowEndOf w)),
     Ok tt).
Proof.
  intros Hb Hsh. rewrite Hb. unfold sheetBordersCalls.
  now rewrite (@drawSheet_rects U w (sheetId s) sh Hsh d).
Qed.

Lemma drawSheetBorders_scene (s : State) (d : JsBordersSheet) (sh : Sheet) :
  borders s = Some d -> getById w (sheetId s) = Some sh ->
  snd (drawSheetBorders U w s) = Ok tt /\
  emitted (fst (drawSheetBorders U w s)) (sheetLines (fst (drawSheetBorders U w s)))
  = map (fun c => Some (options c)) (flat_map (callRects U sh (Some d)) (sheetTiers w d)) /\
  emitted (fst (drawSheetBorders U w s)) (cellLines (fst (drawSheetBorders U w s)))
  = map (fun c => Some (options c))
        (map (horizontalSegmentRect sh) (drawnHorizontal (Some d))
         ++ map (verticalSegmentRect sh) (drawnVertical (Some d))).
Proof.
  intros Hb Hsh.
  destruct (drawSheetBorders_emitted U w s) as (Hs & Hc & Hr & _).
  simpl in Hs, Hc, Hr. rewrite Hs, Hc, Hr, (drawSheetBorders_calls s Hb Hsh). simpl.
  destruct (split_layers U sh (Some d)
              (allTier d (columnStartOf w) (columnEndOf w) (rowStartOf w) (rowEndOf w))
              (columnTier d (columnStartOf w) (columnEndOf w) (rowStartOf w) (rowEndOf w)
               ++ rowTier d (columnStartOf w) (columnEndOf w) (rowStartOf w) (rowEndOf w)))
    as [Hsheet Hcell].
  rewrite !flat_map_app in Hsheet, Hcell.
  rewrite Hsheet, Hcell. unfold sheetTiers. rewrite !flat_map_app.
  repeat split; reflexivity.
Qed.

(** X3.  With a dataset stored and the sheet in place, a redraw ends
    normally and leaves in the sheet container, in this order, the
    rectangles of the sheet-wide tier, of the column tier and of the row
    tier, and in the cell container the rectangles of the explicit
    horizontal segments followed by the vertical ones. *)
Theorem redraw_contents (s : State) (d : JsBordersSheet) (sh : Sheet) :
  borders s = Some d -> getById w (sheetId s) = Some sh ->
  let s' := fst (drawSheetBorders U w s) in
  snd (drawSheetBorders U w s) = Ok tt /\
  emitted s' (sheetLines s')
  = map (fun c => Some (options c)) (flat_map (callRects U sh (Some d)) (sheetTiers w d)) /\
  emitted s' (cellLines s')
  = map (fun c => Some (options c))
        (map (horizontalSegmentRect sh) (drawnHorizontal (Some d))
         ++ map (verticalSegmentRect sh) (drawnVertical (Some d))).
Proof.
  intros Hb Hsh s'. subst s'.
  destruct (drawSheetBorders_scene s Hb Hsh) as (Hok & Hsheet & Hcell).
  split; [exact Hok|]. split; [exact Hsheet | exact Hcell].
Qed.
End Redraw.

Lemma newCulls_newRefs n calls :
  map cull_sprite (newCulls n calls) = newRefs CellLayer n calls.
Proof.
  revert n; induction calls as [|c calls IH]; intros n; simpl; [reflexivity|].
  unfold onLayer. destruct (target c); simpl; now rewrite IH.
Qed.

Lemma perform_children (calls : list DrawCall) : forall s,
  cellLines (fold_left addSprite calls s)
  = cellLines s ++ newRefs CellLayer (length (sprites s)) calls /\
  sheetLines (fold_left addSprite calls s)
  = sheetLines s ++ newRefs SheetLayer (length (sprites s)) calls.
Proof.
  induction calls as [|c calls IH]; intros s; simpl.
  - now rewrite !app_nil_r.
  - destruct (IH (addSprite s c)) as [Hc Hs]. rewrite Hc, Hs.
    unfold addSprite, onLayer. destruct (target c); simpl;
      rewrite ?length_app, <- ?app_assoc; simpl; rewrite ?Nat.add_1_r; split; reflexivity.
Qed.

Lemma newRefs_lookup layer calls : forall (pre : list Sprite),
  map (fun ref => option_map sprite_options
                    (nth_error (pre ++ map (fun c => mkSprite (options c) true) calls) ref))
      (newRefs layer (length pre) calls)
  = map (fun c => Some (options c)) (filter (onLayer layer) calls).
Proof.
  induction calls as [|c calls IH]; intros pre; simpl; [reflexivity|].
  specialize (IH (pre ++ [mkSprite (options c) true])).
  rewrite length_app, Nat.add_1_r, <- app_assoc in IH. simpl in IH.
  destruct (onLayer layer c); simpl; rewrite IH; [|reflexivity].
  f_equal. rewrite nth_error_app2, Nat.sub_diag by lia. reflexivity.
Qed.

Lemma emitted_options a b l :
  map sprite_options (sprites a) = map sprite_options (sprites b) ->
  emitted a l = emitted b l.
Proof.
  intros H. unfold emitted. apply map_ext. intros ref.
  rewrite <- !nth_error_map. now rewrite H.
Qed.

Lemma perform_frame (calls : list DrawCall) : forall s,
  sheetId (fold_left addSprite calls s) = sheetId s /\
  borders (fold_left addSprite calls s) = borders s /\
  dirty (fold_left addSprite calls s) = dirty s /\
  viewport_dirty (fold_left addSprite calls s) = viewport_dirty s /\
  sheetLines_visible (fold_left addSprite calls s) = sheetLines_visible s /\
  sheetLines_alpha (fold_left addSprite calls s) = sheetLines_alpha s.
Proof.
  induction calls as [|c calls IH]; intros s; simpl; [repeat split; reflexivity|].
  destruct (IH (addSprite s c)) as (H1 & H2 & H3 & H4 & H5 & H6).
  rewrite H1, H2, H3, H4, H5, H6.
  unfold addSprite; destruct (target c); repeat split; reflexivity.
Qed.

Lemma newRefs_none layer n calls :
  (forall c, In c calls -> onLayer layer c = false) -> newRefs layer n calls = [].
Proof.
  revert n; induction calls as [|c calls IH]; intros n H; simpl; [reflexivity|].
  rewrite (H c (or_introl eq_refl)). apply IH. intros; apply H; now right.
Qed.

Section Operations.
Context (U : BordersUtil) (w : World).

Lemma drawSheetCells_stored (s : State) (bs : option JsBordersSheet) (sh : Sheet) :
  getById w (sheetId s) = Some sh ->
  sheetId (fst (drawSheetCells w (sheetId s) bs s)) = sheetId s /\
  borders (fst (drawSheetCells w (sheetId s) bs s)) = bs /\
  dirty (fst (drawSheetCells w (sheetId s) bs s)) = true.
Proof.
  intros Hsh. unfold drawSheetCells. rewrite String.eqb_refl. simpl.
  rewrite (@drawHorizontal_rects w (sheetId s) sh Hsh bs),
          (@drawVertical_rects w (sheetId s) sh Hsh bs).
  unfold bind, perform; simpl.
  match goal with |- context [fold_left addSprite ?calls ?s1] =>
    destruct (perform_frame calls s1) as (Hid & Hb & _) end.
  simpl. rewrite Hid, Hb. repeat split; reflexivity.
Qed.

(** X5.  For its own sheet, with the sheet in place, the handler stores
    the dataset it is given, marks the renderer dirty, redraws the cell
    container from the explicit segments that are not "clear", and leaves
    the sheet container, its visibility and alpha, and the viewport flag
    as they were. *)
Theorem handler_stores_and_draws_segments (s : State) (bs : option JsBordersSheet) (sh : Sheet) :
  getById w (sheetId s) = Some sh ->
  let s' := fst (drawSheetCells w (sheetId s) bs s) in
  snd (drawSheetCells w (sheetId s) bs s) = Ok tt /\
  sheetId s' = sheetId s /\ borders s' = bs /\ dirty s' = true /\
  sheetLines s' = sheetLines s /\ viewport_dirty s' = viewport_dirty s /\
  sheetLines_visible s' = sheetLines_visible s /\ sheetLines_alpha s' = sheetLines_alpha s /\
  emitted s' (cellLines s')
  = map (fun c => Some (options c))
        (map (horizontalSegmentRect sh) (drawnHorizontal bs)
         ++ map (verticalSegmentRect sh) (drawnVertical bs)).
Proof.
  intros Hsh s'. subst s'. unfold drawSheetCells. rewrite String.eqb_refl. simpl.
  rewrite (@drawHorizontal_rects w (sheetId s) sh Hsh bs),
          (@drawVertical_rects w (sheetId s) sh Hsh bs).
  unfold bind, perform; simpl.
  set (calls := map (horizontalSegmentRect sh) (drawnHorizontal bs)
                ++ map (verticalSegmentRect sh) (drawnVertical bs)).
  set (s1 := mkState _ _ _ _ _ _ _ _ _ _).
  assert (Hlayer : forall c, In c calls -> target c = CellLayer)
    by (intros c; apply segmentRects_layer).
  destruct (perform_frame calls s1) as (Hid & Hb & _ & Hvd & Hvis & Ha).
  destruct (perform_children calls s1) as [Hc Hs].
  destruct (perform_store calls s1) as [Hsp _].
  simpl. rewrite Hid, Hb, Hvd, Hvis, Ha, Hs.
  rewrite (@newRefs_none SheetLayer) by
    (intros c Hc'; unfold onLayer; now rewrite (Hlayer c Hc')).
  rewrite app_nil_r. repeat split; try reflexivity.
  unfold emitted; simpl. rewrite Hc, Hsp. simpl.
  rewrite newRefs_lookup.
  rewrite filter_all by (intros c Hc'; unfold onLayer; now rewrite (Hlayer c Hc')).
  reflexivity.
Qed.
End Operations.

Section Growth.
Context (U : BordersUtil) (w : World).

(** X7.  [spriteLines] only grows: a redraw, an event and an update each
    keep every [BorderCull] there was and append to them; a redraw with the
    sheet in place appends one per explicit segment that is not "clear",
    although it has just emptied the cell container. *)
Theorem cull_list_only_grows (s : State) :
  (exists new, spriteLines (fst (drawSheetBorders U w s)) = spriteLines s ++ new) /\
  (forall id bs, exists new, spriteLines (fst (drawSheetCells w id bs s)) = spriteLines s ++ new) /\
  (exists new, spriteLines (fst (update U w s)) = spriteLines s ++ new) /\
  (forall d sh, borders s = Some d -> getById w (sheetId s) = Some sh ->
     exists new,
       spriteLines (fst (drawSheetBorders U w s)) = spriteLines s ++ new /\
       map cull_rectangle new
       = map (fun c => position (options c))
             (map (horizontalSegmentRect sh) (drawnHorizontal (Some d))
              ++ map (verticalSegmentRect sh) (drawnVertical (Some d)))).
Proof.
  assert (Hdraw : forall s0, exists new,
            spriteLines (fst (drawSheetBorders U w s0)) = spriteLines s0 ++ new).
  { intros s0. unfold drawSheetBorders. simpl. destruct (borders s0) as [d|].
    - unfold perform. simpl.
      match goal with |- context [fold_left addSprite ?c ?s1] =>
        destruct (perform_store c s1) as [_ H]; rewrite H end.
      eexists. reflexivity.
    - exists []. simpl. now rewrite app_nil_r. }
  split; [apply Hdraw|]. split; [|split].
  - intros id bs. unfold drawSheetCells. destruct (String.eqb id (sheetId s)).
    + unfold perform. simpl.
      match goal with |- context [fold_left addSprite ?c ?s1] =>
        destruct (perform_store c s1) as [_ H];
        destruct (snd (bind (drawHorizontal w (sheetId s) bs)
                            (fun _ => drawVertical w (sheetId s) bs))) end;
        simpl; rewrite H; eexists; reflexivity.
    + exists []. simpl. now rewrite app_nil_r.
  - unfold update. destruct (negb (dirty s) && negb (viewport_dirty s)).
    { exists []. simpl. now rewrite app_nil_r. }
    unfold showSheetLines.
    destruct (scale_x w <? SCALE_TO_SHOW_SHEET_BORDERS)%float.
    { exists []. simpl. now rewrite app_nil_r. }
    destruct (Hdraw (set_sheetLines_visible true s)) as (new & Hnew).
    destruct (drawSheetBorders U w (set_sheetLines_visible true s)) as [s1 [[]|m]];
      simpl in Hnew.
    + case_fade;
        exists new; simpl; exact Hnew.
    + exists new. exact Hnew.
  - intros d sh Hb Hsh. unfold drawSheetBorders. simpl. rewrite Hb.
    unfold perform. simpl. rewrite (@drawSheet_rects U w (sheetId s) sh Hsh d). simpl.
    match goal with |- context [fold_left addSprite ?c ?s1] =>
      destruct (perform_store c s1) as [_ H]; rewrite H end.
    eexists. split; [reflexivity|]. rewrite newCulls_rectangles.
    destruct (split_layers U sh (Some d)
              (allTier d (columnStartOf w) (columnEndOf w) (rowStartOf w) (rowEndOf w))
              (columnTier d (columnStartOf w) (columnEndOf w) (rowStartOf w) (rowEndOf w)
               ++ rowTier d (columnStartOf w) (columnEndOf w) (rowStartOf w) (rowEndOf w)))
      as [_ Hcell].
    rewrite !flat_map_app in Hcell. now rewrite Hcell.
Qed.

(** X8.  [update] clears the dirty flag when it ends normally and leaves
    it as it was when the redraw throws; it never clears the dirty flag of
    the viewport, and a redraw at a visible scale sets it. *)
Theorem update_flags (s : State) :
  (snd (update U w s) = Ok tt -> dirty (fst (update U w s)) = false) /\
  (forall m, snd (update U w s) = Throw m -> dirty (fst (update U w s)) = dirty s) /\
  (viewport_dirty s = true -> viewport_dirty (fst (update U w s)) = true) /\
  (dirty s = true \/ viewport_dirty s = true ->
   (scale_x w <? SCALE_TO_SHOW_SHEET_BORDERS)%float = false ->
   viewport_dirty (fst (update U w s)) = true).
Proof.
  pose proof (drawSheetBorders_emitted U w (set_sheetLines_visible true s))
    as (_ & _ & _ & _ & _ & Hd & Hvd & _).
  unfold update, showSheetLines.
  destruct (negb (dirty s) && negb (viewport_dirty s)) eqn:Eclean.
  - apply andb_true_iff in Eclean. destruct Eclean as [Ed Ev].
    apply negb_true_iff in Ed, Ev. simpl.
    split; [auto|]. split; [discriminate|]. split; [congruence|].
    intros [H|H]; congruence.
  - destruct (scale_x w <? SCALE_TO_SHOW_SHEET_BORDERS)%float eqn:Es.
    + simpl. split; [reflexivity|]. split; [discriminate|]. split; [auto|].
      intros _ Hge. discriminate.
    + destruct (drawSheetBorders U w (set_sheetLines_visible true s)) as [s1 [[]|m]];
        simpl in Hd, Hvd.
      * case_fade; simpl;
          (split; [reflexivity|]); (split; [discriminate|]); auto.
      * simpl. split; [discriminate|]. split; [auto|]. auto.
Qed.
End Growth.

Section Flow.
Context (U : BordersUtil) (w : World).

(** X6.  A dataset delivered for the renderer's sheet, followed by an
    update at a visible scale with the sheet in place: the update ends
    normally, the renderer is clean, the sheet container is visible and
    holds the rectangles of the three tiers of that dataset, and the cell
    container holds those of its explicit segments. *)
Theorem dataset_reaches_the_screen (s : State) (d : JsBordersSheet) (sh : Sheet) :
  getById w (sheetId s) = Some sh ->
  (scale_x w <? SCALE_TO_SHOW_SHEET_BORDERS)%float = false ->
  let s1 := fst (drawSheetCells w (sheetId s) (Some d) s) in
  let s2 := fst (update U w s1) in
  snd (update U w s1) = Ok tt /\
  borders s2 = Some d /\ dirty s2 = false /\ sheetLines_visible s2 = true /\
  emitted s2 (sheetLines s2)
  = map (fun c => Some (options c)) (flat_map (callRects U sh (Some d)) (sheetTiers w d)) /\
  emitted s2 (cellLines s2)
  = map (fun c => Some (options c))
        (map (horizontalSegmentRect sh) (drawnHorizontal (Some d))
         ++ map (verticalSegmentRect sh) (drawnVertical (Some d))).
Proof.
  intros Hsh Hscale s1 s2.
  destruct (@drawSheetCells_stored w s (Some d) sh Hsh) as (Hid & Hb & Hd).
  fold s1 in Hid, Hb, Hd.
  assert (Hsh1 : getById w (sheetId (set_sheetLines_visible true s1)) = Some sh)
    by (simpl; now rewrite Hid).
  assert (Hb1 : borders (set_sheetLines_visible true s1) = Some d) by exact Hb.
  destruct (@drawSheetBorders_scene U w (set_sheetLines_visible true s1) d sh Hb1 Hsh1)
    as (Hok & Hsheet & Hcell).
  destruct (drawSheetBorders_emitted U w (set_sheetLines_visible true s1))
    as (_ & _ & _ & _ & Hb2 & _ & _ & Hvis & _).
  subst s2. unfold update, showSheetLines. rewrite Hd. simpl.
  rewrite Hscale.
  destruct (drawSheetBorders U w (set_sheetLines_visible true s1)) as [s3 r].
  simpl in *. subst r. rewrite Hb in Hb2.
  case_fade; simpl;
    match goal with |- context [cull w ?x] =>
      pose proof (cull_frame w x) as (_ & _ & Hopt & _) end;
    (split; [reflexivity|]); (split; [exact Hb2|]); (split; [reflexivity|]);
    (split; [exact Hvis|]);
    match goal with |- context [cull w ?x] =>
      rewrite !(@emitted_options (cull w x) x _ Hopt) end;
    split; assumption.
Qed.
End Flow.

Lemma setVisible_length ref v l : length (setVisible ref v l) = length l.
Proof.
  revert ref; induction l as [|sp l IH]; intros [|ref]; simpl; try reflexivity.
  now rewrite IH.
Qed.

Lemma setVisible_other ref v l ref' :
  ref' <> ref -> nth_error (setVisible ref v l) ref' = nth_error l ref'.
Proof.
  revert ref ref'; induction l as [|sp l IH]; intros [|ref] [|ref'] H; simpl;
    try reflexivity; try congruence.
  apply IH. congruence.
Qed.

Lemma setVisible_same ref v l :
  (ref < length l)%nat ->
  option_map sprite_visible (nth_error (setVisible ref v l) ref) = Some v.
Proof.
  revert ref; induction l as [|sp l IH]; intros [|ref] H; simpl in *; try lia.
  - reflexivity.
  - apply IH. lia.
Qed.

Section Culling.
Context (w : World).

Lemma cullFold_length culls : forall sps, length (cullFold w culls sps) = length sps.
Proof.
  induction culls as [|c culls IH]; intros sps; simpl; [reflexivity|].
  unfold cullFold in *. simpl. now rewrite IH, setVisible_length.
Qed.

Lemma cullFold_other culls ref : forall sps,
  ~ In ref (map cull_sprite culls) ->
  nth_error (cullFold w culls sps) ref = nth_error sps ref.
Proof.
  induction culls as [|c culls IH]; intros sps H; [reflexivity|].
  unfold cullFold in *. simpl in *.
  rewrite IH by tauto. apply setVisible_other. intros ->. tauto.
Qed.

Lemma cullFold_set culls : forall sps c,
  NoDup (map cull_sprite culls) ->
  Forall (fun c => (cull_sprite c < length sps)%nat) culls ->
  In c culls ->
  option_map sprite_visible (nth_error (cullFold w culls sps) (cull_sprite c))
  = Some (intersects w (cull_rectangle c) (getVisibleBounds w)).
Proof.
  induction culls as [|c0 culls IH]; intros sps c Hnd Hall Hin; [destruct Hin|].
  inversion Hnd as [|? ? Hnot Hnd']; subst.
  inversion Hall as [|? ? Hc0 Hall']; subst.
  change (cullFold w (c0 :: culls) sps)
    with (cullFold w culls
            (setVisible (cull_sprite c0)
               (intersects w (cull_rectangle c0) (getVisibleBounds w)) sps)).
  destruct Hin as [->|Hin].
  - rewrite cullFold_other by exact Hnot. now apply setVisible_same.
  - apply IH; [exact Hnd' | | exact Hin].
    eapply Forall_impl; [|exact Hall']. simpl. intros a Ha. now rewrite setVisible_length.
Qed.

Lemma cull_visibleAt (s : State) :
  wellFormed s ->
  forall c, In c (spriteLines s) ->
    visibleAt (cull w s) (cull_sprite c)
    = Some (intersects w (cull_rectangle c) (getVisibleBounds w)).
Proof.
  intros [Hvalid Hnd] c Hc. unfold visibleAt, cull. simpl. now apply cullFold_set.
Qed.

(** X9.  When every [BorderCull] has a sprite of its own, [cull] changes
    of each of these sprites the visibility only, which becomes whether its
    rectangle intersects the visible bounds; it changes the drawing options
    of no sprite, touches no sprite outside [spriteLines], and leaves the
    containers, the cull list, the dataset and the flags as they were. *)
Theorem cull_shows_what_intersects (s : State) :
  wellFormed s ->
  (forall c, In c (spriteLines s) ->
     exists sp,
       nth_error (sprites s) (cull_sprite c) = Some sp /\
       nth_error (sprites (cull w s)) (cull_sprite c)
       = Some (mkSprite (sprite_options sp)
                        (intersects w (cull_rectangle c) (getVisibleBounds w)))) /\
  (forall ref, ~ In ref (map cull_sprite (spriteLines s)) ->
     nth_error (sprites (cull w s)) ref = nth_error (sprites s) ref) /\
  map sprite_options (sprites (cull w s)) = map sprite_options (sprites s) /\
  cellLines (cull w s) = cellLines s /\ sheetLines (cull w s) = sheetLines s /\
  spriteLines (cull w s) = spriteLines s /\ borders (cull w s) = borders s /\
  sheetLines_visible (cull w s) = sheetLines_visible s /\
  sheetLines_alpha (cull w s) = sheetLines_alpha s /\
  dirty (cull w s) = dirty s /\ viewport_dirty (cull w s) = viewport_dirty s.
Proof.
  intros [Hvalid Hnd].
  destruct (cull_frame w s) as (_ & Hb & Hopt & Hcl & Hsl & Hv & Ha & Hsp & Hd & Hvd).
  split; [|split; [|repeat split; assumption]].
  - intros c Hc.
    pose proof (@cullFold_set (spriteLines s) (sprites s) c Hnd Hvalid Hc) as Hvis.
    assert (Hn : nth_error (map sprite_options (sprites (cull w s))) (cull_sprite c)
                 = nth_error (map sprite_options (sprites s)) (cull_sprite c))
      by now rewrite Hopt.
    rewrite !nth_error_map in Hn.
    change (sprites (cull w s)) with (cullFold w (spriteLines s) (sprites s)) in *.
    destruct (nth_error (cullFold w (spriteLines s) (sprites s)) (cull_sprite c))
      as [[o v]|]; [|discriminate].
    destruct (nth_error (sprites s) (cull_sprite c)) as [sp|]; [|discriminate].
    simpl in Hvis, Hn. injection Hvis as ->. injection Hn as ->.
    exists sp. split; reflexivity.
  - intros ref Href. unfold cull. simpl. now apply cullFold_other.
Qed.
End Culling.

Lemma newRefs_bounds layer calls : forall n r,
  In r (newRefs layer n calls) -> (n <= r < n + length calls)%nat.
Proof.
  induction calls as [|c calls IH]; intros n r H; simpl in *; [destruct H|].
  destruct (onLayer layer c).
  - destruct H as [<-|H]; [lia|]. apply IH in H. lia.
  - apply IH in H. lia.
Qed.

Lemma newRefs_NoDup layer calls : forall n, NoDup (newRefs layer n calls).
Proof.
  induction calls as [|c calls IH]; intros n; simpl; [constructor|].
  destruct (onLayer layer c); [|apply IH].
  constructor; [|apply IH]. intros H. apply newRefs_bounds in H. lia.
Qed.

Lemma newRefs_disjoint calls : forall n r,
  In r (newRefs SheetLayer n calls) -> ~ In r (newRefs CellLayer n calls).
Proof.
  induction calls as [|c calls IH]; intros n r Hs Hc; simpl in *; [destruct Hs|].
  unfold onLayer in *. destruct (target c).
  - destruct Hc as [<-|Hc]; [apply newRefs_bounds in Hs; lia | now apply (IH (S n) r)].
  - destruct Hs as [<-|Hs]; [apply newRefs_bounds in Hc; lia | now apply (IH (S n) r)].
Qed.

Lemma newRefs_visible layer calls (pre : list Sprite) r :
  In r (newRefs layer (length pre) calls) ->
  option_map sprite_visible
    (nth_error (pre ++ map (fun c => mkSprite (options c) true) calls) r) = Some true.
Proof.
  intros H. apply newRefs_bounds in H.
  rewrite nth_error_app2 by lia. rewrite nth_error_map.
  destruct (nth_error calls (r - length pre)) eqn:E; [reflexivity|].
  apply nth_error_None in E. lia.
Qed.

Lemma perform_wellFormed calls s :
  wellFormed s -> wellFormed (fold_left addSprite calls s).
Proof.
  intros [Hvalid Hnd]. unfold wellFormed.
  destruct (perform_store calls s) as [Hsp Hcl]. rewrite Hsp, Hcl.
  split.
  - apply Forall_app. split.
    + eapply Forall_impl; [|exact Hvalid]. simpl. intros a Ha. rewrite length_app. lia.
    + eapply Forall_impl; [|apply newCulls_refs]. simpl. intros a Ha.
      rewrite length_app, length_map. lia.
  - rewrite map_app, newCulls_newRefs. apply NoDup_app; [exact Hnd | apply newRefs_NoDup |].
    intros r Hold Hnew. apply newRefs_bounds in Hnew.
    apply in_map_iff in Hold. destruct Hold as (c & <- & Hc).
    rewrite Forall_forall in Hvalid. specialize (Hvalid c Hc). lia.
Qed.

Section Invariant.
Context (U : BordersUtil) (w : World).

Lemma cull_wellFormed s : wellFormed s -> wellFormed (cull w s).
Proof.
  intros [Hvalid Hnd]. split; [|exact Hnd].
  change (sprites (cull w s)) with (cullFold w (spriteLines s) (sprites s)).
  change (spriteLines (cull w s)) with (spriteLines s).
  eapply Forall_impl; [|exact Hvalid]. simpl. intros a Ha.
  now rewrite cullFold_length.
Qed.

Lemma drawSheetBorders_wellFormed s :
  wellFormed s -> wellFormed (fst (drawSheetBorders U w s)).
Proof.
  intros H. unfold drawSheetBorders. simpl.
  destruct (borders s); [|exact H].
  unfold perform. simpl. apply perform_wellFormed. exact H.
Qed.

Lemma drawSheetCells_wellFormed id bs s :
  wellFormed s -> wellFormed (fst (drawSheetCells w id bs s)).
Proof.
  intros H. unfold drawSheetCells. destruct (String.eqb id (sheetId s)); [|exact H].
  unfold perform. simpl.
  match goal with |- context [fold_left addSprite ?c ?s1] =>
    assert (Hwf : wellFormed (fold_left addSprite c s1))
      by (apply perform_wellFormed; exact H);
    destruct (snd (bind (drawHorizontal w (sheetId s) bs)
                        (fun _ => drawVertical w (sheetId s) bs))) end;
    exact Hwf.
Qed.

Lemma update_wellFormed s : wellFormed s -> wellFormed (fst (update U w s)).
Proof.
  intros H. unfold update.
  destruct (negb (dirty s) && negb (viewport_dirty s)); [exact H|].
  unfold showSheetLines.
  destruct (scale_x w <? SCALE_TO_SHOW_SHEET_BORDERS)%float.
  - simpl. apply cull_wellFormed. exact H.
  - pose proof (@drawSheetBorders_wellFormed (set_sheetLines_visible true s) H) as H1.
    destruct (drawSheetBorders U w (set_sheetLines_visible true s)) as [s1 [[]|m]];
      simpl in H1; [|exact H1].
    case_fade; simpl;
      apply cull_wellFormed; exact H1.
Qed.

Lemma fresh_sheet_sprites_visible (s0 : State) calls ref :
  wellFormed s0 -> sheetLines s0 = [] ->
  In ref (sheetLines (fold_left addSprite calls s0)) ->
  visibleAt (fold_left addSprite calls s0) ref = Some true /\
  ~ In ref (map cull_sprite (spriteLines (fold_left addSprite calls s0))).
Proof.
  intros [Hvalid _] Hempty Hin.
  destruct (perform_children calls s0) as [_ Hs].
  destruct (perform_store calls s0) as [Hsp Hcl].
  rewrite Hs, Hempty in Hin. simpl in Hin. split.
  - unfold visibleAt. rewrite Hsp. now apply newRefs_visible with (layer := SheetLayer).
  - rewrite Hcl, map_app, newCulls_newRefs. intros H. apply in_app_or in H.
    destruct H as [H|H].
    + apply in_map_iff in H. destruct H as (c & <- & Hc).
      rewrite Forall_forall in Hvalid. specialize (Hvalid c Hc).
      apply newRefs_bounds in Hin. lia.
    + now apply (newRefs_disjoint calls _ _ Hin).
Qed.

(** X10.  After an update that redraws and ends normally, every sprite
    of [spriteLines] is visible exactly when its rectangle intersects the
    visible bounds, and at a visible scale every sprite of the sheet
    container is visible: culling never hides a sheet line. *)
Theorem redraw_culls_cell_sprites_only (s : State) :
  wellFormed s ->
  dirty s = true \/ viewport_dirty s = true ->
  snd (update U w s) = Ok tt ->
  let s' := fst (update U w s) in
  wellFormed s' /\
  (forall c, In c (spriteLines s') ->
     visibleAt s' (cull_sprite c)
     = Some (intersects w (cull_rectangle c) (getVisibleBounds w))) /\
  ((scale_x w <? SCALE_TO_SHOW_SHEET_BORDERS)%float = false ->
   forall ref, In ref (sheetLines s') -> visibleAt s' ref = Some true).
Proof.
  intros Hwf Hdirty Hok s'. split; [now apply update_wellFormed|].
  subst s'. revert Hok. unfold update.
  assert (Hgo : negb (dirty s) && negb (viewport_dirty s) = false).
  { destruct Hdirty as [-> | ->]; simpl; [reflexivity | apply andb_false_r]. }
  rewrite Hgo. unfold showSheetLines.
  destruct (scale_x w <? SCALE_TO_SHOW_SHEET_BORDERS)%float eqn:Es.
  - intros _. simpl. split.
    + apply (@cull_visibleAt w (set_dirty false (set_sheetLines_visible false s))).
      exact Hwf.
    + intros Hge. discriminate.
  - assert (Hfresh : forall ref,
              In ref (sheetLines (fst (drawSheetBorders U w (set_sheetLines_visible true s)))) ->
              visibleAt (fst (drawSheetBorders U w (set_sheetLines_visible true s))) ref
              = Some true /\
              ~ In ref (map cull_sprite
                          (spriteLines (fst (drawSheetBorders U w
                                               (set_sheetLines_visible true s)))))).
    { unfold drawSheetBorders. simpl. destruct (borders s); [|intros ref []].
      unfold perform. simpl. intros ref. apply fresh_sheet_sprites_visible; [exact Hwf|reflexivity]. }
    pose proof (@drawSheetBorders_wellFormed (set_sheetLines_visible true s) Hwf) as H1.
    destruct (drawSheetBorders U w (set_sheetLines_visible true s)) as [s1 [[]|m]];
      simpl in H1, Hfresh; [|discriminate].
    intros _.
    assert (Hcull : forall x, wellFormed x -> sprites x = sprites s1 ->
              spriteLines x = spriteLines s1 -> sheetLines x = sheetLines s1 ->
              (forall c, In c (spriteLines (cull w x)) ->
                 visibleAt (cull w x) (cull_sprite c)
                 = Some (intersects w (cull_rectangle c) (getVisibleBounds w))) /\
              (forall ref, In ref (sheetLines (cull w x)) ->
                 visibleAt (cull w x) ref = Some true)).
    { intros x Hx Hsp Hcl Hsl.
      pose proof (@cull_visibleAt w x Hx) as Hset.
      assert (Hother : forall ref, ~ In ref (map cull_sprite (spriteLines x)) ->
                nth_error (sprites (cull w x)) ref = nth_error (sprites x) ref)
        by (intros ref Hr; unfold cull; simpl; now apply cullFold_other).
      split.
      - exact Hset.
      - intros ref Href. simpl in Href. rewrite Hsl in Href.
        destruct (Hfresh ref Href) as [Hv Hn].
        unfold visibleAt. rewrite Hother by (now rewrite Hcl).
        rewrite Hsp. exact Hv. }
    case_fade; simpl;
      match goal with |- context [cull w ?x] =>
        destruct (Hcull x H1 eq_refl eq_refl eq_refl) as [Ha Hb] end;
      split; [exact Ha | intros _; exact Hb | exact Ha | intros _; exact Hb].
Qed.
End Invariant.

Section SheetWide.
Context (d : JsBordersSheet) (columnStart columnEnd rowStart rowEnd : Z).

Lemma allTier_calls (call : LineCall) :
  In call (allTier d columnStart columnEnd rowStart rowEnd) <->
  exists all, b_all d = Some all /\
    ((exists e y, later (bsc_top all) (bsc_bottom all) = Some e /\
                  rowStart <= y <= rowEnd /\
                  call = HorizontalCall columnStart (columnEnd + 1) y e (b_rows d)) \/
     (exists e x, later (bsc_left all) (bsc_right all) = Some e /\
                  columnStart <= x <= columnEnd /\
                  call = VerticalCall rowStart (rowEnd + 1) x e (b_columns d))).
Proof.
  unfold allTier. destruct (b_all d) as [all|].
  2:{ split; [intros [] | intros (all & H & _); discriminate]. }
  rewrite in_app_iff. split.
  - intros [H|H]; exists all; (split; [reflexivity|]).
    + destruct (later (bsc_top all) (bsc_bottom all)) as [e|]; [|destruct H].
      apply in_map_iff in H. destruct H as (y & <- & Hy). apply in_upto in Hy.
      left. exists e, y. auto.
    + destruct (later (bsc_left all) (bsc_right all)) as [e|]; [|destruct H].
      apply in_map_iff in H. destruct H as (x & <- & Hx). apply in_upto in Hx.
      right. exists e, x. auto.
  - intros (all' & [= <-] & [(e & y & -> & Hy & ->)|(e & x & -> & Hx & ->)]).
    + left. apply in_map_iff. exists y. split; [reflexivity | now apply in_upto].
    + right. apply in_map_iff. exists x. split; [reflexivity | now apply in_upto].
Qed.

Lemma filter_map {X Y} (p : Y -> bool) (f : X -> Y) (l : list X) :
  filter p (map f l) = map f (filter (fun a => p (f a)) l).
Proof.
  induction l as [|a l IH]; simpl; [reflexivity|].
  destruct (p (f a)); simpl; now rewrite IH.
Qed.

Lemma filter_false {X} (l : list X) : filter (fun _ => false) l = [].
Proof. induction l; [reflexivity | assumption]. Qed.

Lemma filter_index (y : Z) : forall (n : nat) (a : Z),
  filter (fun i => i =? y) (map (fun i => a + Z.of_nat i) (seq 0 n))
  = if (a <=? y) && (y <? a + Z.of_nat n) then [y] else [].
Proof.
  induction n as [|n IH]; intros a.
  - simpl. destruct (Z.leb_spec a y), (Z.ltb_spec y (a + 0)); simpl; try reflexivity; lia.
  - cbn [seq map filter]. rewrite <- seq_shift, map_map.
    rewrite (map_ext (fun i => a + Z.of_nat (S i)) (fun i => (a + 1) + Z.of_nat i))
      by (intros i; lia).
    rewrite IH.
    destruct (Z.eqb_spec (a + Z.of_nat 0) y) as [E|E];
      destruct (Z.leb_spec (a + 1) y), (Z.ltb_spec y (a + 1 + Z.of_nat n)),
               (Z.leb_spec a y), (Z.ltb_spec y (a + Z.of_nat (S n)));
      simpl; try reflexivity; try lia.
    f_equal. lia.
Qed.

Lemma filter_upto (y a b : Z) :
  filter (fun i => i =? y) (upto a b) = if (a <=? y) && (y <=? b) then [y] else [].
Proof.
  unfold upto. rewrite filter_index.
  destruct (Z.leb_spec a y), (Z.leb_spec y b),
           (Z.ltb_spec y (a + Z.of_nat (Z.to_nat (b + 1 - a))));
    simpl; try reflexivity; lia.
Qed.

(** X11.  [drawAll] asks for exactly one horizontal line on each row of
    the window, from its first row to its last, and for none on any other
    row; for exactly one vertical line on each column of the window, and
    for none on any other column.  The horizontal line runs over the
    columns of the window and one more and is resolved against the row
    overrides, the vertical one over the rows of the window and one more,
    against the column overrides.  All horizontal lines carry one style,
    the later of top and bottom, all vertical ones the later of left and
    right. *)
Theorem sheet_wide_tier_one_line_per_index (all : BorderStyleCell) :
  b_all d = Some all ->
  (forall y,
     filter (horizontalAt y) (allTier d columnStart columnEnd rowStart rowEnd)
     = match later (bsc_top all) (bsc_bottom all) with
       | Some e =>
           if (rowStart <=? y) && (y <=? rowEnd)
           then [HorizontalCall columnStart (columnEnd + 1) y e (b_rows d)]
           else []
       | None => []
       end) /\
  (forall x,
     filter (verticalAt x) (allTier d columnStart columnEnd rowStart rowEnd)
     = match later (bsc_left all) (bsc_right all) with
       | Some e =>
           if (columnStart <=? x) && (x <=? columnEnd)
           then [VerticalCall rowStart (rowEnd + 1) x e (b_columns d)]
           else []
       | None => []
       end).
Proof.
  intros Hall. unfold allTier. rewrite Hall.
  split; intros i; rewrite filter_app.
  - destruct (later (bsc_top all) (bsc_bottom all)) as [h|],
             (later (bsc_left all) (bsc_right all)) as [v|];
      rewrite ?filter_map; simpl; rewrite ?filter_upto;
      rewrite ?filter_false;
      simpl; rewrite ?app_nil_r; try reflexivity;
      destruct ((rowStart <=? i) && (i <=? rowEnd)); reflexivity.
  - destruct (later (bsc_top all) (bsc_bottom all)) as [h|],
             (later (bsc_left all) (bsc_right all)) as [v|];
      rewrite ?filter_map; simpl; rewrite ?filter_upto;
      rewrite ?filter_false;
      simpl; try reflexivity;
      destruct ((columnStart <=? i) && (i <=? columnEnd)); reflexivity.
Qed.

Lemma columnCalls_visible columns k call :
  In call (columnCalls d columnStart columnEnd rowStart rowEnd columns k) ->
  columnStart <= k <= columnEnd.
Proof.
  unfold columnCalls.
  destruct ((k >=? columnStart) && (k <=? columnEnd)) eqn:E; [|intros []].
  apply andb_true_iff in E. destruct E as [E1 E2].
  apply Z.geb_le in E1. apply Z.leb_le in E2. intros _. lia.
Qed.

Lemma rowCalls_visible rows k call :
  In call (rowCalls d columnStart columnEnd rowStart rowEnd rows k) ->
  rowStart <= k <= rowEnd.
Proof.
  unfold rowCalls.
  destruct ((k >=? rowStart) && (k <=? rowEnd)) eqn:E; [|intros []].
  apply andb_true_iff in E. destruct E as [E1 E2].
  apply Z.geb_le in E1. apply Z.leb_le in E2. intros _. lia.
Qed.

(** X12.  Every line a redraw asks for lies in the index window of the
    viewport, widened by one row and one column at its far side. *)
Theorem tiers_stay_in_the_window (call : LineCall) :
  In call (allTier d columnStart columnEnd rowStart rowEnd
           ++ columnTier d columnStart columnEnd rowStart rowEnd
           ++ rowTier d columnStart columnEnd rowStart rowEnd) ->
  inWindow columnStart columnEnd rowStart rowEnd call.
Proof.
  rewrite !in_app_iff. intros [H|[H|H]].
  - apply allTier_calls in H.
    destruct H as (all & _ & [(e & y & _ & Hy & ->)|(e & x & _ & Hx & ->)]); simpl; lia.
  - apply columnTier_calls in H. destruct H as (columns & k & _ & _ & H).
    pose proof (columnCalls_visible _ _ _ H) as Hk.
    destruct call as [a b x e r|a b y e c]; simpl.
    + apply columnCalls_vertical in H.
      destruct H as (_ & -> & -> & _ & _ & col & _ & [(-> & _)|(-> & _)]); lia.
    + apply columnCalls_horizontal in H. destruct H as (-> & -> & _ & Hy). lia.
  - apply rowTier_calls in H. destruct H as (rows & k & _ & _ & H).
    pose proof (rowCalls_visible _ _ _ H) as Hk.
    destruct call as [a b x e r|a b y e c]; simpl.
    + apply rowCalls_vertical in H. destruct H as (-> & -> & _ & Hx). lia.
    + apply rowCalls_horizontal in H.
      destruct H as (_ & -> & -> & _ & _ & row & _ & [(-> & _)|(-> & _)]); lia.
Qed.
End SheetWide.

Section Boundaries.
Context (d : JsBordersSheet) (columnStart columnEnd rowStart rowEnd : Z).

Lemma neighbor_lookup m k cell edge :
  lookup m k = Some cell -> neighbor m k edge = edge cell.
Proof. unfold neighbor. now intros ->. Qed.

(** X13.  Two visible neighbors that declare the two sides of their
    shared boundary, neither "clear", at different timestamps: the tier
    draws that boundary with the later declaration and with no other. *)
Theorem later_edge_owns_shared_boundary :
  (forall columns c columnA columnB r l,
     b_columns d = Some columns ->
     columnStart <= c - 1 -> c <= columnEnd ->
     lookup columns (c - 1) = Some columnA -> bsc_right columnA = Some r ->
     lookup columns c = Some columnB -> bsc_left columnB = Some l ->
     is_clear (bst_line r) = false -> is_clear (bst_line l) = false ->
     bst_timestamp r <> bst_timestamp l ->
     forall a b e rws,
       In (VerticalCall a b c e rws) (columnTier d columnStart columnEnd rowStart rowEnd) <->
       a = rowStart /\ b = rowEnd + 1 /\ rws = b_rows d /\
       e = (if bst_timestamp l >? bst_timestamp r then l else r)) /\
  (forall rows r rowA rowB bt tp,
     b_rows d = Some rows ->
     rowStart <= r - 1 -> r <= rowEnd ->
     lookup rows (r - 1) = Some rowA -> bsc_bottom rowA = Some bt ->
     lookup rows r = Some rowB -> bsc_top rowB = Some tp ->
     is_clear (bst_line bt) = false -> is_clear (bst_line tp) = false ->
     bst_timestamp bt <> bst_timestamp tp ->
     forall a b e cols,
       In (HorizontalCall a b r e cols) (rowTier d columnStart columnEnd rowStart rowEnd) <->
       a = columnStart /\ b = columnEnd + 1 /\ cols = b_columns d /\
       e = (if bst_timestamp tp >? bst_timestamp bt then tp else bt)).
Proof.
  split.
  - intros columns c columnA columnB r l Hcols Hlo Hhi HA Hr HB Hl Hcr Hcl Hne a b e rws.
    assert (HnR : neighbor columns (c - 1) bsc_right = Some r)
      by (rewrite (@neighbor_lookup _ _ _ _ HA); exact Hr).
    assert (HnL : neighbor columns (c - 1 + 1) bsc_left = Some l)
      by (replace (c - 1 + 1) with c by lia; rewrite (@neighbor_lookup _ _ _ _ HB); exact Hl).
    rewrite Z.gtb_ltb. split.
    + intros Hin. apply columnTier_calls in Hin.
      destruct Hin as (columns' & k & Hc' & _ & Hin). rewrite Hcols in Hc'. injection Hc' as <-.
      apply columnCalls_vertical in Hin.
      destruct Hin as (_ & -> & -> & -> & _ & col & Hk & [(<- & He & Hw)|(-> & He & Hw)]).
      * rewrite HB in Hk. injection Hk as <-. rewrite Hl in He. injection He as <-.
        rewrite HnR in Hw. apply wins_Some in Hw.
        destruct (Z.ltb_spec (bst_timestamp r) (bst_timestamp l)); [auto | lia].
      * replace (k + 1 - 1) with k in * by lia.
        rewrite HA in Hk. injection Hk as <-. rewrite Hr in He. injection He as <-.
        rewrite HnL in Hw. apply wins_Some in Hw.
        destruct (Z.ltb_spec (bst_timestamp r) (bst_timestamp l)); [lia | auto].
    + intros (-> & -> & -> & ->).
      destruct (Z.ltb_spec (bst_timestamp r) (bst_timestamp l)).
      * apply (proj1 (@column_left_edge d columnStart columnEnd rowStart rowEnd
                        columns c columnB l Hcols ltac:(lia) HB Hl Hcl)).
        rewrite HnR. now apply wins_Some.
      * pose proof (proj1 (@column_right_edge d columnStart columnEnd rowStart rowEnd
                        columns (c - 1) columnA r Hcols ltac:(lia) HA Hr Hcr)) as H'.
        replace (c - 1 + 1) with c in H' by lia. apply H'.
        replace c with (c - 1 + 1) by lia. rewrite HnL. apply wins_Some. lia.
  - intros rows r rowA rowB bt tp Hrows Hlo Hhi HA Hb HB Ht Hcb Hct Hne a b e cols.
    assert (HnB : neighbor rows (r - 1) bsc_bottom = Some bt)
      by (rewrite (@neighbor_lookup _ _ _ _ HA); exact Hb).
    assert (HnT : neighbor rows (r - 1 + 1) bsc_top = Some tp)
      by (replace (r - 1 + 1) with r by lia; rewrite (@neighbor_lookup _ _ _ _ HB); exact Ht).
    rewrite Z.gtb_ltb. split.
    + intros Hin. apply rowTier_calls in Hin.
      destruct Hin as (rows' & k & Hc' & _ & Hin). rewrite Hrows in Hc'. injection Hc' as <-.
      apply rowCalls_horizontal in Hin.
      destruct Hin as (_ & -> & -> & -> & _ & row & Hk & [(<- & He & Hw)|(-> & He & Hw)]).
      * rewrite HB in Hk. injection Hk as <-. rewrite Ht in He. injection He as <-.
        rewrite HnB in Hw. apply wins_Some in Hw.
        destruct (Z.ltb_spec (bst_timestamp bt) (bst_timestamp tp)); [auto | lia].
      * replace (k + 1 - 1) with k in * by lia.
        rewrite HA in Hk. injection Hk as <-. rewrite Hb in He. injection He as <-.
        rewrite HnT in Hw. apply wins_Some in Hw.
        destruct (Z.ltb_spec (bst_timestamp bt) (bst_timestamp tp)); [lia | auto].
    + intros (-> & -> & -> & ->).
      destruct (Z.ltb_spec (bst_timestamp bt) (bst_timestamp tp)).
      * apply (proj1 (@row_top_edge d columnStart columnEnd rowStart rowEnd
                        rows r rowB tp Hrows ltac:(lia) HB Ht Hct)).
        rewrite HnB. now apply wins_Some.
      * pose proof (proj1 (@row_bottom_edge d columnStart columnEnd rowStart rowEnd
                        rows (r - 1) rowA bt Hrows ltac:(lia) HA Hb Hcb)) as H'.
        replace (r - 1 + 1) with r in H' by lia. apply H'.
        replace r with (r - 1 + 1) by lia. rewrite HnT. apply wins_Some. lia.
Qed.

(** X14.  The comparison looks at a neighbor outside the window, whose
    own pass is skipped: an edge at the rim of the window that does not
    win against the edge of such a neighbor leaves its boundary without any
    line. *)
Theorem hidden_neighbor_leaves_boundary_undrawn :
  (forall columns c column l other,
     b_columns d = Some columns -> c - 1 < columnStart ->
     lookup columns c = Some column -> bsc_left column = Some l ->
     neighbor columns (c - 1) bsc_right = Some other ->
     bst_timestamp l <= bst_timestamp other ->
     forall a b e rws,
       ~ In (VerticalCall a b c e rws) (columnTier d columnStart columnEnd rowStart rowEnd)) /\
  (forall columns c column r other,
     b_columns d = Some columns -> columnEnd < c + 1 ->
     lookup columns c = Some column -> bsc_right column = Some r ->
     neighbor columns (c + 1) bsc_left = Some other ->
     bst_timestamp r <= bst_timestamp other ->
     forall a b e rws,
       ~ In (VerticalCall a b (c + 1) e rws)
            (columnTier d columnStart columnEnd rowStart rowEnd)) /\
  (forall rows r row tp other,
     b_rows d = Some rows -> r - 1 < rowStart ->
     lookup rows r = Some row -> bsc_top row = Some tp ->
     neighbor rows (r - 1) bsc_bottom = Some other ->
     bst_timestamp tp <= bst_timestamp other ->
     forall a b e cols,
       ~ In (HorizontalCall a b r e cols) (rowTier d columnStart columnEnd rowStart rowEnd)) /\
  (forall rows r row bt other,
     b_rows d = Some rows -> rowEnd < r + 1 ->
     lookup rows r = Some row -> bsc_bottom row = Some bt ->
     neighbor rows (r + 1) bsc_top = Some other ->
     bst_timestamp bt <= bst_timestamp other ->
     forall a b e cols,
       ~ In (HorizontalCall a b (r + 1) e cols)
            (rowTier d columnStart columnEnd rowStart rowEnd)).
Proof.
  split; [|split; [|split]].
  - intros columns c column l other Hcols Hhid Hlook Hl Hn Hts a b e rws Hin.
    apply columnTier_calls in Hin.
    destruct Hin as (columns' & k & Hc' & _ & Hin). rewrite Hcols in Hc'. injection Hc' as <-.
    apply columnCalls_vertical in Hin.
    destruct Hin as (Hvis & _ & _ & _ & _ & col & Hk & [(<- & He & Hw)|(-> & _)]); [|lia].
    rewrite Hlook in Hk. injection Hk as <-. rewrite Hl in He. injection He as <-.
    rewrite Hn in Hw. apply wins_Some in Hw. lia.
  - intros columns c column r other Hcols Hhid Hlook Hr Hn Hts a b e rws Hin.
    apply columnTier_calls in Hin.
    destruct Hin as (columns' & k & Hc' & _ & Hin). rewrite Hcols in Hc'. injection Hc' as <-.
    apply columnCalls_vertical in Hin.
    destruct Hin as (Hvis & _ & _ & _ & _ & col & Hk & [(Hkc & _)|(Hkc & He & Hw)]); [lia|].
    assert (k = c) by lia. subst k.
    rewrite Hlook in Hk. injection Hk as <-. rewrite Hr in He. injection He as <-.
    rewrite Hn in Hw. apply wins_Some in Hw. lia.
  - intros rows r row tp other Hrows Hhid Hlook Ht Hn Hts a b e cols Hin.
    apply rowTier_calls in Hin.
    destruct Hin as (rows' & k & Hc' & _ & Hin). rewrite Hrows in Hc'. injection Hc' as <-.
    apply rowCalls_horizontal in Hin.
    destruct Hin as (Hvis & _ & _ & _ & _ & rw & Hk & [(<- & He & Hw)|(-> & _)]); [|lia].
    rewrite Hlook in Hk. injection Hk as <-. rewrite Ht in He. injection He as <-.
    rewrite Hn in Hw. apply wins_Some in Hw. lia.
  - intros rows r row bt other Hrows Hhid Hlook Hb Hn Hts a b e cols Hin.
    apply rowTier_calls in Hin.
    destruct Hin as (rows' & k & Hc' & _ & Hin). rewrite Hrows in Hc'. injection Hc' as <-.
    apply rowCalls_horizontal in Hin.
    destruct Hin as (Hvis & _ & _ & _ & _ & rw & Hk & [(Hkc & _)|(Hkc & He & Hw)]); [lia|].
    assert (k = r) by lia. subst k.
    rewrite Hlook in Hk. injection Hk as <-. rewrite Hb in He. injection He as <-.
    rewrite Hn in Hw. apply wins_Some in Hw. lia.
Qed.
End Boundaries.

Lemma filter_and_filter {A} (p q : A -> bool) l :
  filter (fun a => p a && q a) (filter p l) = filter (fun a => p a && q a) l.
Proof.
  induction l as [|a l IH]; simpl; [reflexivity|].
  destruct (p a) eqn:E; simpl; rewrite ?E; simpl; now rewrite IH.
Qed.

(** X15.  A line is split by the explicit segments of its own column (or
    row) only: removing the segments of the other columns (rows) from the
    dataset changes nothing in what the line draws. *)
Theorem segments_elsewhere_do_not_split (U : BordersUtil) (d d' : JsBordersSheet)
    (start end_ fixed : Z) (entries : option Overrides) :
  (forall vs, b_vertical d = Some vs ->
     b_vertical d' = Some (filter (fun v => v_x v =? fixed) vs) ->
     verticalLines U (Some d') start end_ fixed entries
     = verticalLines U (Some d) start end_ fixed entries) /\
  (forall hs, b_horizontal d = Some hs ->
     b_horizontal d' = Some (filter (fun h => h_y h =? fixed) hs) ->
     horizontalLines U (Some d') start end_ fixed entries
     = horizontalLines U (Some d) start end_ fixed entries).
Proof.
  split.
  - intros vs Hd Hd'. unfold verticalLines, verticalOverlaps. simpl.
    rewrite Hd, Hd'. simpl.
    now rewrite (filter_and_filter (fun v => v_x v =? fixed)).
  - intros hs Hd Hd'. unfold horizontalLines, horizontalOverlaps. simpl.
    rewrite Hd, Hd'. simpl.
    now rewrite (filter_and_filter (fun h => h_y h =? fixed)).
Qed.

Section Drawers.
Context (U : BordersUtil) (w : World).

(** X1.  With the sheet in place, a line drawer ends normally and draws
    one rectangle per resolved sub-interval, in order, on the sheet layer:
    for a vertical line at the x of its column, with no width, from the y
    of the first row of the sub-interval to the y of its end; for a
    horizontal line symmetrically; all in the style of the declaration. *)
Theorem line_drawers_draw_one_rectangle_per_subinterval (id : string) (sh : Sheet) :
  getById w id = Some sh ->
  (forall bs rowStart rowEnd column border rows,
     drawScreenVerticalLine U w id bs rowStart rowEnd column border rows
     = (map (verticalRect sh column border)
            (verticalLines U bs rowStart rowEnd column rows), Ok tt)) /\
  (forall bs columnStart columnEnd row border columns,
     drawScreenHorizontalLine U w id bs columnStart columnEnd row border columns
     = (map (horizontalRect sh row border)
            (horizontalLines U bs columnStart columnEnd row columns), Ok tt)).
Proof.
  intros Hsh. split.
  - intros bs a b x e r.
    exact (@runCall_rects U w id sh Hsh bs (VerticalCall a b x e r)).
  - intros bs a b y e c.
    exact (@runCall_rects U w id sh Hsh bs (HorizontalCall a b y e c)).
Qed.

Lemma forEach_nothing {A} (l : list A) (f : A -> Draw unit) :
  (forall a, In a l -> f a = ([], Ok tt)) -> forEach l f = ([], Ok tt).
Proof.
  intros H. rewrite (@forEach_ok _ l f (fun _ => [])) by exact H.
  induction l; [reflexivity | simpl; apply IHl; intros; apply H; now right].
Qed.

Lemma filter_nil_all {A} (p : A -> bool) l a :
  filter p l = [] -> In a l -> p a = false.
Proof.
  induction l as [|b l IH]; simpl; [intros _ []|].
  destruct (p b) eqn:E; [discriminate|]. intros H [<-|Hin]; [exact E | now apply IH].
Qed.

(** X2.  With the sheet in place, the drawers of the explicit segments
    end normally and draw one rectangle per segment that is not "clear",
    in the order of the dataset, on the cell layer.  With nothing to draw
    (no dataset, no segment list, or "clear" segments only) they draw
    nothing and end normally even when the sheet is missing. *)
Theorem segment_drawers_skip_clear (id : string) :
  (forall sh bs, getById w id = Some sh ->
     drawHorizontal w id bs = (map (horizontalSegmentRect sh) (drawnHorizontal bs), Ok tt) /\
     drawVertical w id bs = (map (verticalSegmentRect sh) (drawnVertical bs), Ok tt)) /\
  (forall bs, drawnHorizontal bs = [] -> drawHorizontal w id bs = ([], Ok tt)) /\
  (forall bs, drawnVertical bs = [] -> drawVertical w id bs = ([], Ok tt)).
Proof.
  split; [|split].
  - intros sh bs Hsh. split;
      [apply (@drawHorizontal_rects w id sh Hsh) | apply (@drawVertical_rects w id sh Hsh)].
  - intros bs H. unfold drawHorizontal, drawnHorizontal in *.
    destruct (borders_horizontal bs) as [hs|]; [|reflexivity].
    apply forEach_nothing. intros border Hin.
    pose proof (filter_nil_all _ _ border H Hin) as Hc.
    apply negb_false_iff in Hc. now rewrite Hc.
  - intros bs H. unfold drawVertical, drawnVertical in *.
    destruct (borders_vertical bs) as [vs|]; [|reflexivity].
    apply forEach_nothing. intros border Hin.
    pose proof (filter_nil_all _ _ border H Hin) as Hc.
    apply negb_false_iff in Hc. now rewrite Hc.
Qed.

(** X16.  Below the visibility threshold, an update that follows
    [setDirty] ends normally, hides the sheet container and clears the
    dirty flag without redrawing anything: the dataset, the children of
    both containers with their rectangles and styles, the cull list, alpha
    and the viewport flag are the ones from before.  The redraw that was
    asked for is not kept: unless the viewport is dirty, the next update is
    a no-op in every world, also when the zoom is back above the
    threshold. *)
Theorem hidden_zoom_consumes_dirty_without_redraw (s : State) :
  (scale_x w <? SCALE_TO_SHOW_SHEET_BORDERS)%float = true ->
  let s' := fst (update U w (setDirty s)) in
  snd (update U w (setDirty s)) = Ok tt /\
  dirty s' = false /\ sheetLines_visible s' = false /\
  sheetLines_alpha s' = sheetLines_alpha s /\
  borders s' = borders s /\
  cellLines s' = cellLines s /\ sheetLines s' = sheetLines s /\
  emitted s' (cellLines s') = emitted s (cellLines s) /\
  emitted s' (sheetLines s') = emitted s (sheetLines s) /\
  spriteLines s' = spriteLines s /\ viewport_dirty s' = viewport_dirty s /\
  (forall (U' : BordersUtil) (w' : World),
     viewport_dirty s = false -> update U' w' s' = (s', Ok tt)).
Proof.
  intros Hscale s'. subst s'.
  unfold update, showSheetLines. simpl. rewrite Hscale. simpl.
  pose proof (cull_frame w (set_dirty false (set_sheetLines_visible false (setDirty s))))
    as (_ & _ & Hopt & _).
  repeat split.
  - apply (@emitted_options _ s). exact Hopt.
  - apply (@emitted_options _ s). exact Hopt.
  - intros U' w' Hv. rewrite Hv. reflexivity.
Qed.
End Drawers.

Section Perpendicular.
Context (d : JsBordersSheet) (columnStart columnEnd rowStart rowEnd : Z).

(** X17.  The top and the bottom edge of a visible column override are
    each drawn, when not "clear", as a unit line on every row boundary of
    the window, from its first row to one past its last: both on the same
    places, with no comparison between them.  Likewise the left and right
    edges of a visible row override on every column boundary. *)
Theorem perpendicular_edges_drawn_on_every_boundary :
  (forall columns k column e y,
     b_columns d = Some columns -> columnStart <= k <= columnEnd ->
     lookup columns k = Some column ->
     bsc_top column = Some e \/ bsc_bottom column = Some e ->
     is_clear (bst_line e) = false ->
     rowStart <= y <= rowEnd + 1 ->
     In (HorizontalCall k (k + 1) y e None)
        (columnTier d columnStart columnEnd rowStart rowEnd)) /\
  (forall rows k row e x,
     b_rows d = Some rows -> rowStart <= k <= rowEnd ->
     lookup rows k = Some row ->
     bsc_left row = Some e \/ bsc_right row = Some e ->
     is_clear (bst_line e) = false ->
     columnStart <= x <= columnEnd + 1 ->
     In (VerticalCall k (k + 1) x e None)
        (rowTier d columnStart columnEnd rowStart rowEnd)).
Proof.
  split.
  - intros columns k column e y Hcols Hvis Hlook Hedge Hclear Hy.
    apply columnTier_calls. exists columns, k. split; [exact Hcols|].
    split; [eapply lookup_key; eauto|].
    unfold columnCalls.
    replace ((k >=? columnStart) && (k <=? columnEnd)) with true
      by (symmetry; apply andb_true_iff; split; [apply Z.geb_le | apply Z.leb_le]; lia).
    rewrite Hlook, !in_app_iff.
    destruct Hedge as [He|He]; rewrite He, Hclear; simpl;
      [right; right; left | right; right; right];
      apply in_map_iff; exists y; (split; [reflexivity | now apply in_upto]).
  - intros rows k row e x Hrows Hvis Hlook Hedge Hclear Hx.
    apply rowTier_calls. exists rows, k. split; [exact Hrows|].
    split; [eapply lookup_key; eauto|].
    unfold rowCalls.
    replace ((k >=? rowStart) && (k <=? rowEnd)) with true
      by (symmetry; apply andb_true_iff; split; [apply Z.geb_le | apply Z.leb_le]; lia).
    rewrite Hlook, !in_app_iff.
    destruct Hedge as [He|He]; rewrite He, Hclear; simpl;
      [right; right; left | right; right; right];
      apply in_map_iff; exists x; (split; [reflexivity | now apply in_upto]).
Qed.
End Perpendicular.

(* ===================================================================== *)
(** ** Further theorems at sample inputs                                  *)
(* ===================================================================== *)

Lemma line_drawers_draw_one_rectangle_per_subinterval_witness :
  drawScreenVerticalLine specUtil (sampleWorld 1) "sheet1" (Some crossing)
    0 10 3 (solid 9) None
  = (map (verticalRect sampleSheet 3 (solid 9))
         (verticalLines specUtil (Some crossing) 0 10 3 None), Ok tt).
Proof.
  apply (proj1 (@line_drawers_draw_one_rectangle_per_subinterval
                  specUtil (sampleWorld 1) "sheet1" sampleSheet eq_refl)).
Defined.

Lemma segment_drawers_skip_clear_witness :
  drawHorizontal (sampleWorld 1) "sheet1" (Some crossing)
  = (map (horizontalSegmentRect sampleSheet) (drawnHorizontal (Some crossing)), Ok tt) /\
  drawHorizontal (sampleWorld 1) "sheet2" None = ([], Ok tt) /\
  drawVertical (sampleWorld 1) "sheet2" None = ([], Ok tt).
Proof.
  split; [|split].
  - apply (proj1 (segment_drawers_skip_clear (sampleWorld 1) "sheet1") sampleSheet
                 (Some crossing) eq_refl).
  - apply (proj1 (proj2 (segment_drawers_skip_clear (sampleWorld 1) "sheet2")) None eq_refl).
  - apply (proj2 (proj2 (segment_drawers_skip_clear (sampleWorld 1) "sheet2")) None eq_refl).
Defined.

Lemma redraw_contents_witness :
  snd (drawSheetBorders specUtil (sampleWorld 1) (initial (Some (adjacentColumns (solid 2) (solid 1)))))
  = Ok tt.
Proof.
  apply (@redraw_contents specUtil (sampleWorld 1)
           (initial (Some (adjacentColumns (solid 2) (solid 1))))
           (adjacentColumns (solid 2) (solid 1)) sampleSheet eq_refl eq_refl).
Defined.

Lemma handler_stores_and_draws_segments_witness :
  borders (fst (drawSheetCells (sampleWorld 1) "sheet1" (Some crossing) (initial None)))
  = Some crossing.
Proof.
  apply (@handler_stores_and_draws_segments (sampleWorld 1) (initial None)
           (Some crossing) sampleSheet eq_refl).
Defined.

Lemma dataset_reaches_the_screen_witness :
  snd (update specUtil (sampleWorld 1)
         (fst (drawSheetCells (sampleWorld 1) "sheet1" (Some crossing) (initial None))))
  = Ok tt.
Proof.
  apply (@dataset_reaches_the_screen specUtil (sampleWorld 1) (initial None)
           crossing sampleSheet eq_refl).
  reflexivity.
Defined.

Lemma cull_list_only_grows_witness :
  exists new,
    spriteLines (fst (drawSheetBorders specUtil (sampleWorld 1)
                        (initial (Some crossing)))) = [] ++ new /\
    map cull_rectangle new
    = map (fun c => position (options c))
          (map (horizontalSegmentRect sampleSheet) (drawnHorizontal (Some crossing))
           ++ map (verticalSegmentRect sampleSheet) (drawnVertical (Some crossing))).
Proof.
  apply (proj2 (proj2 (proj2 (cull_list_only_grows specUtil (sampleWorld 1)
                                (initial (Some crossing)))))
               crossing sampleSheet eq_refl eq_refl).
Defined.

Lemma update_flags_witness :
  dirty (fst (update specUtil (sampleWorld 1) (setDirty (initial None)))) = false /\
  dirty (fst (update specUtil (sampleWorld 1) orphan)) = true /\
  viewport_dirty (fst (update specUtil (sampleWorld 0.125)
                         (mkState "sheet1" None [] [] [] true 1 [] false true))) = true /\
  viewport_dirty (fst (update specUtil (sampleWorld 1) (setDirty (initial None)))) = true.
Proof.
  split; [|split; [|split]].
  - apply (proj1 (update_flags specUtil (sampleWorld 1) (setDirty (initial None)))).
    reflexivity.
  - apply (proj1 (proj2 (update_flags specUtil (sampleWorld 1) orphan)) sheetError).
    reflexivity.
  - apply (proj1 (proj2 (proj2 (update_flags specUtil (sampleWorld 0.125)
                                  (mkState "sheet1" None [] [] [] true 1 [] false true))))).
    reflexivity.
  - apply (proj2 (proj2 (proj2 (update_flags specUtil (sampleWorld 1)
                                  (setDirty (initial None)))))).
    + left. reflexivity.
    + reflexivity.
Defined.

Lemma cull_shows_what_intersects_witness :
  exists sp,
    nth_error (sprites (fst (drawSheetCells (sampleWorld 1) "sheet1"
                               (Some crossing) (initial None)))) 0%nat = Some sp /\
    nth_error (sprites (cull (sampleWorld 1)
                          (fst (drawSheetCells (sampleWorld 1) "sheet1"
                                  (Some crossing) (initial None))))) 0%nat
    = Some (mkSprite (sprite_options sp) true).
Proof.
  exact (proj1 (@cull_shows_what_intersects (sampleWorld 1) _
                  (@drawSheetCells_wellFormed (sampleWorld 1) "sheet1" (Some crossing)
                     (initial None) (conj (Forall_nil _) (NoDup_nil _))))
               (mkCull 0%nat (mkRect 400 60 100 0))
               (or_introl eq_refl)).
Defined.

Lemma redraw_culls_cell_sprites_only_witness :
  visibleAt (fst (update specUtil (sampleWorld 1)
                    (setDirty (initial (Some (adjacentColumns (solid 2) (solid 1)))))))
            0%nat
  = Some true.
Proof.
  refine (proj2 (proj2 (@redraw_culls_cell_sprites_only specUtil (sampleWorld 1)
                          (setDirty (initial (Some (adjacentColumns (solid 2) (solid 1)))))
                          (conj (Forall_nil _) (NoDup_nil _))
                          (or_introl eq_refl) eq_refl))
                _ 0%nat (or_introl eq_refl)).
  reflexivity.
Defined.

Lemma sheet_wide_tier_one_line_per_index_witness :
  filter (horizontalAt 4) (allTier sheetWide 0 10 0 10)
  = [HorizontalCall 0 11 4 (solid 2) None] /\
  filter (horizontalAt 11) (allTier sheetWide 0 10 0 10) = [].
Proof.
  split.
  - exact (proj1 (@sheet_wide_tier_one_line_per_index sheetWide 0 10 0 10 _ eq_refl) 4).
  - exact (proj1 (@sheet_wide_tier_one_line_per_index sheetWide 0 10 0 10 _ eq_refl) 11).
Defined.

Lemma tiers_stay_in_the_window_witness :
  inWindow 0 10 0 10 (VerticalCall 0 11 6 (solid 2) None).
Proof.
  apply (@tiers_stay_in_the_window (adjacentColumns (solid 2) (solid 1)) 0 10 0 10).
  simpl. now left.
Defined.

Lemma later_edge_owns_shared_boundary_witness :
  (forall a b e rws,
     In (VerticalCall a b 6 e rws)
        (columnTier (adjacentColumns (solid 2) (solid 1)) 0 10 0 10) <->
     a = 0 /\ b = 10 + 1 /\ rws = None /\ e = solid 2) /\
  (forall a b e cols,
     In (HorizontalCall a b 6 e cols)
        (rowTier (adjacentRows (solid 1) (solid 2)) 0 10 0 10) <->
     a = 0 /\ b = 10 + 1 /\ cols = None /\ e = solid 2).
Proof.
  split.
  - refine (proj1 (later_edge_owns_shared_boundary
                     (adjacentColumns (solid 2) (solid 1)) 0 10 0 10)
                  _ 6 _ _ (solid 2) (solid 1) eq_refl _ _ eq_refl eq_refl eq_refl eq_refl
                  eq_refl eq_refl _); simpl; lia.
  - refine (proj2 (later_edge_owns_shared_boundary
                     (adjacentRows (solid 1) (solid 2)) 0 10 0 10)
                  _ 6 _ _ (solid 1) (solid 2) eq_refl _ _ eq_refl eq_refl eq_refl eq_refl
                  eq_refl eq_refl _); simpl; lia.
Defined.

Lemma hidden_neighbor_leaves_boundary_undrawn_witness :
  (forall a b e rws,
     ~ In (VerticalCall a b 6 e rws)
          (columnTier (adjacentColumns (solid 2) (solid 1)) 6 10 0 10)) /\
  (forall a b e rws,
     ~ In (VerticalCall a b (5 + 1) e rws)
          (columnTier (adjacentColumns (solid 1) (solid 2)) 0 5 0 10)) /\
  (forall a b e cols,
     ~ In (HorizontalCall a b 6 e cols)
          (rowTier (adjacentRows (solid 2) (solid 1)) 0 10 6 10)) /\
  (forall a b e cols,
     ~ In (HorizontalCall a b (5 + 1) e cols)
          (rowTier (adjacentRows (solid 1) (solid 2)) 0 10 0 5)).
Proof.
  split; [|split; [|split]].
  - refine (proj1 (hidden_neighbor_leaves_boundary_undrawn
                     (adjacentColumns (solid 2) (solid 1)) 6 10 0 10)
                  _ 6 _ (solid 1) (solid 2) eq_refl _ eq_refl eq_refl eq_refl _); simpl; lia.
  - refine (proj1 (proj2 (hidden_neighbor_leaves_boundary_undrawn
                     (adjacentColumns (solid 1) (solid 2)) 0 5 0 10))
                  _ 5 _ (solid 1) (solid 2) eq_refl _ eq_refl eq_refl eq_refl _); simpl; lia.
  - refine (proj1 (proj2 (proj2 (hidden_neighbor_leaves_boundary_undrawn
                     (adjacentRows (solid 2) (solid 1)) 0 10 6 10)))
                  _ 6 _ (solid 1) (solid 2) eq_refl _ eq_refl eq_refl eq_refl _); simpl; lia.
  - refine (proj2 (proj2 (proj2 (hidden_neighbor_leaves_boundary_undrawn
                     (adjacentRows (solid 1) (solid 2)) 0 10 0 5)))
                  _ 5 _ (solid 1) (solid 2) eq_refl _ eq_refl eq_refl eq_refl _); simpl; lia.
Defined.

Lemma segments_elsewhere_do_not_split_witness :
  verticalLines specUtil (Some oneColumn) 0 10 3 None
  = verticalLines specUtil (Some twoColumns) 0 10 3 None.
Proof.
  apply (proj1 (segments_elsewhere_do_not_split specUtil twoColumns oneColumn 0 10 3 None)
               _ eq_refl eq_refl).
Defined.

Lemma hidden_zoom_consumes_dirty_without_redraw_witness :
  sheetLines_visible
    (fst (update specUtil (sampleWorld 0.125) (setDirty (initial (Some crossing))))) = false /\
  update specUtil (sampleWorld 1)
    (fst (update specUtil (sampleWorld 0.125) (setDirty (initial (Some crossing)))))
  = (fst (update specUtil (sampleWorld 0.125) (setDirty (initial (Some crossing)))), Ok tt).
Proof.
  pose proof (@hidden_zoom_consumes_dirty_without_redraw specUtil (sampleWorld 0.125)
                (initial (Some crossing)) eq_refl) as H.
  split.
  - exact (proj1 (proj2 (proj2 H))).
  - exact (proj2 (proj2 (proj2 (proj2 (proj2 (proj2 (proj2 (proj2 (proj2 (proj2 (proj2 H))))))))))
                 specUtil (sampleWorld 1) eq_refl).
Defined.

Lemma perpendicular_edges_drawn_on_every_boundary_witness :
  In (HorizontalCall 2 (2 + 1) 3 (solid 1) None) (columnTier columnWithTop 0 10 0 10) /\
  In (VerticalCall 2 (2 + 1) 3 (solid 1) None) (rowTier rowWithLeft 0 10 0 10).
Proof.
  split.
  - refine (proj1 (perpendicular_edges_drawn_on_every_boundary columnWithTop 0 10 0 10)
                  _ 2 _ (solid 1) 3 eq_refl _ eq_refl (or_introl eq_refl) eq_refl _); lia.
  - refine (proj2 (perpendicular_edges_drawn_on_every_boundary rowWithLeft 0 10 0 10)
                  _ 2 _ (solid 1) 3 eq_refl _ eq_refl (or_introl eq_refl) eq_refl _); lia.
Defined.
